(** * Screens for off-disk emission: sunpy/coordinates/screens.py

    A shallow embedding of [BaseScreen], [SphericalScreen] and
    [PlanarScreen], and the properties of their [calculate_distance];
    then of [is_uri], [parse_uri] and [parse_path] of sunpy/util/io.py.

    The arithmetic of the source is NumPy's, so the embedding is written
    once over an interface of scalars and read at two instances: the real
    numbers (the exact geometry) and IEEE-754 binary64 (what NumPy
    computes, with its rounding, its NaN and its infinities).  What holds
    of the geometry and is lost to rounding is stated over the real
    numbers, with the binary64 input at which it is lost. *)

From Stdlib Require Import ZArith List String Reals Lra Lia.
From Stdlib Require Import Floats.SpecFloat.
From Stdlib Require Import Ascii Sorting.Permutation Sorting.Sorted.
From stdpp Require Import base option gmap strings sorting.

Set Default Proof Using "Type".

(** ** Python outcomes *)

(** The exceptions the modelled code can run into. *)
Inductive exn : Type :=
| NotImplementedError   (* raised by BaseScreen.calculate_distance *)
| TypeError             (* an unexpected keyword argument *)
| AttributeError.       (* reading an attribute the object does not have *)

Inductive outcome (A : Type) : Type :=
| Returns (a : A)
| Raises (e : exn).
Arguments Returns {A} a.
Arguments Raises {A} e.

(** ** Scalars *)

(** What the source asks of its numbers: literals, the four operations and
    a square root. *)
Class Scalar (T : Type) : Type := {
  lit : Z -> T;
  add : T -> T -> T;
  sub : T -> T -> T;
  mul : T -> T -> T;
  div : T -> T -> T;
  sqrt : T -> T
}.

Declare Scope scalar_scope.
Delimit Scope scalar_scope with sc.
Infix "+" := add : scalar_scope.
Infix "-" := sub : scalar_scope.
Infix "*" := mul : scalar_scope.
Infix "/" := div : scalar_scope.

(** [x ** 2]. *)
Definition sq {T : Type} `{Scalar T} (x : T) : T := mul x x.

(** Exact arithmetic. *)
#[export] Instance R_scalar : Scalar R := {|
  lit := IZR;
  add := Rplus;
  sub := Rminus;
  mul := Rmult;
  div := Rdiv;
  sqrt := R_sqrt.sqrt
|}.

(** IEEE-754 binary64, round to nearest even: NumPy's float64. *)
Module F64.
Definition prec : Z := 53.
Definition emax : Z := 1024.
Definition t : Type := spec_float.

Definition of_Z (z : Z) : t := binary_normalize prec emax z 0 false.
Definition nan : t := S754_nan.

Definition is_nan (x : t) : bool :=
  match x with S754_nan => true | _ => false end.
Definition is_finite (x : t) : bool :=
  match x with S754_zero _ | S754_finite _ _ _ => true | _ => false end.
(** Either a zero or a NaN: what [a - a] can be. *)
Definition zero_or_nan (x : t) : bool :=
  match x with S754_zero _ | S754_nan => true | _ => false end.
Definition ltb (x y : t) : bool := SFltb x y.
Definition eqb (x y : t) : bool := SFeqb x y.
End F64.

#[export] Instance F64_scalar : Scalar F64.t := {|
  lit := F64.of_Z;
  add := SFadd F64.prec F64.emax;
  sub := SFsub F64.prec F64.emax;
  mul := SFmul F64.prec F64.emax;
  div := SFdiv F64.prec F64.emax;
  sqrt := SFsqrt F64.prec F64.emax
|}.

(** ** astropy's CartesianRepresentation *)

Record Cartesian (T : Type) : Type := mkCartesian { x : T; y : T; z : T }.
Arguments mkCartesian {T} x y z.
Arguments x {T} c.
Arguments y {T} c.
Arguments z {T} c.

Section CartesianOps.
Context {T : Type} `{Scalar T}.
Local Open Scope scalar_scope.

(** [a.dot(b)]: the sum of the products of the components. *)
Definition dot (a b : Cartesian T) : T :=
  x a * x b + y a * y b + z a * z b.

(** [a.norm()]. *)
Definition norm (a : Cartesian T) : T :=
  sqrt (x a * x a + y a * y a + z a * z a).

(** [a * k], a representation times a scalar. *)
Definition scale (a : Cartesian T) (k : T) : Cartesian T :=
  mkCartesian (x a * k) (y a * k) (z a * k).

(** [a - b]. *)
Definition vsub (a b : Cartesian T) : Cartesian T :=
  mkCartesian (x a - x b) (y a - y b) (z a - z b).

(** [a / k]. *)
Definition vdiv (a : Cartesian T) (k : T) : Cartesian T :=
  mkCartesian (x a / k) (y a / k) (z a / k).
End CartesianOps.

(** ** The coordinate machinery the screens consume *)

(** The frames and sky coordinates of sunpy.coordinates and astropy are
    collaborators of this module: the screens only call them.  They are
    taken as an interface. *)
Class Coordinates (T : Type) : Type := {
  Time : Type;
  (** A 3D point with its observation epoch (astropy's SkyCoord). *)
  SkyCoord : Type;
  (** A point expressed in HeliographicStonyhurst. *)
  HGSCoord : Type;
  (** The observer-centred frame whose sky positions are queried. *)
  Frame : Type;
  (** [c.obstime] *)
  obstime : SkyCoord -> Time;
  (** [c.transform_to(HeliographicStonyhurst(obstime=t))] *)
  transform_to_hgs : SkyCoord -> Time -> HGSCoord;
  (** [h.radius]: the distance from the centre of the reference body *)
  hgs_radius : HGSCoord -> T;
  (** [c.transform_to(frame).cartesian] *)
  transform_to_cartesian : SkyCoord -> Frame -> Cartesian T;
  (** [frame.observer.radius] *)
  observer_radius : Frame -> T;
  (** [frame.represent_as(UnitSphericalRepresentation)]: one unit line of
      sight for each sky position, by the Cartesian components that [dot]
      works on. *)
  represent_as_unit : Frame -> list (Cartesian T)
}.

(** ** The object store *)

(** The caller owns the sky coordinates and the frames; a screen holds a
    reference to them. *)
Definition loc : Type := positive.

Inductive pyobj {T : Type} `{Coordinates T} : Type :=
| ObjSkyCoord (c : SkyCoord)
| ObjFrame (f : Frame).

(** A computation over the store, which may raise. *)
Definition Py (H A : Type) : Type := H -> outcome A * H.

Definition ret {H A : Type} (a : A) : Py H A := fun h => (Returns a, h).

Definition raise {H A : Type} (e : exn) : Py H A := fun h => (Raises e, h).

Definition bind {H A B : Type} (m : Py H A) (k : A -> Py H B) : Py H B :=
  fun h =>
    match m h with
    | (Returns a, h') => k a h'
    | (Raises e, h') => (Raises e, h')
    end.

Notation "x <- m ;; k" := (bind m (fun x => k))
  (at level 100, m at next level, right associativity).

Section Store.
Context {T : Type} `{Coordinates T}.

(** Following a reference that is used as a sky coordinate.  The
    properties below are about stores in which the reference holds one;
    for any other object the methods that are missing make Python raise,
    which [AttributeError] stands for. *)
Definition load_skycoord (l : loc) : Py (gmap loc pyobj) SkyCoord :=
  fun h =>
    match h !! l with
    | Some (ObjSkyCoord c) => (Returns c, h)
    | _ => (Raises AttributeError, h)
    end.

(** Following a reference that is used as a frame, likewise. *)
Definition load_frame (l : loc) : Py (gmap loc pyobj) Frame :=
  fun h =>
    match h !! l with
    | Some (ObjFrame f) => (Returns f, h)
    | _ => (Raises AttributeError, h)
    end.
End Store.

(** ** class BaseScreen *)

Module BaseScreen.
Record t : Type := mk { type : string; only_off_disk : bool }.

(** [__init__(self, type, only_off_disk=False)] *)
Definition init (type : string) (only_off_disk : option bool) : outcome t :=
  Returns (mk type (default false only_off_disk)).

(** [super().__init__(type, **kwargs)]: the only keyword there is to
    bind is [only_off_disk]. *)
Definition init_kwargs (type : string) (kwargs : gmap string bool)
  : outcome t :=
  if decide (dom kwargs ⊆ ({["only_off_disk"%string]} : gset string))
  then init type (kwargs !! "only_off_disk"%string)
  else Raises TypeError.

(** [calculate_distance(self)] *)
Definition calculate_distance {H T : Type} (self : t) : Py H (list T) :=
  raise NotImplementedError.
End BaseScreen.

(** ** class SphericalScreen(BaseScreen) *)

Module SphericalScreen.
Record t : Type := mk { base : BaseScreen.t; center : loc }.

(** [__init__(self, center, **kwargs)] *)
Definition init (center : loc) (kwargs : gmap string bool) : outcome t :=
  match BaseScreen.init_kwargs "spherical" kwargs with
  | Returns b => Returns (mk b center)
  | Raises e => Raises e
  end.

Section Methods.
Context {T : Type} `{Scalar T} `{Coordinates T}.
Local Open Scope scalar_scope.

(** The property [center_hgs]. *)
Definition center_hgs (self : t) : Py (gmap loc pyobj) HGSCoord :=
  c <- load_skycoord (center self) ;;
  ret (transform_to_hgs c (obstime c)).

(** The property [radius]. *)
Definition radius (self : t) : Py (gmap loc pyobj) T :=
  h <- center_hgs self ;;
  ret (hgs_radius h).

(** [calculate_distance(self, frame)] *)
Definition calculate_distance (self : t) (frame : loc)
  : Py (gmap loc pyobj) (list T) :=
  ctr <- load_skycoord (center self) ;;
  fr <- load_frame frame ;;
  let sphere_center := transform_to_cartesian ctr fr in
  r <- radius self ;;
  let c := sq (norm sphere_center) - sq r in
  let rep := represent_as_unit fr in
  let b := map (fun D => lit (-2) * dot sphere_center D) rep in
  let distance :=
    map (fun bi => (lit (-1) * bi + sqrt (sq bi - lit 4 * c)) / lit 2) b in
  ret distance.
End Methods.
End SphericalScreen.

(** ** class PlanarScreen(BaseScreen) *)

Module PlanarScreen.
Record t : Type := mk { base : BaseScreen.t; vantage_point : loc }.

(** [__init__(self, vantage_point, **kwargs)] *)
Definition init (vantage_point : loc) (kwargs : gmap string bool)
  : outcome t :=
  match BaseScreen.init_kwargs "planar" kwargs with
  | Returns b => Returns (mk b vantage_point)
  | Raises e => Raises e
  end.

Section Methods.
Context {T : Type} `{Scalar T} `{Coordinates T}.
Local Open Scope scalar_scope.

(** [calculate_distance(self, frame)] *)
Definition calculate_distance (self : t) (frame : loc)
  : Py (gmap loc pyobj) (list T) :=
  vp <- load_skycoord (vantage_point self) ;;
  fr <- load_frame frame ;;
  let direction := transform_to_cartesian vp fr in
  let direction :=
    vsub (scale (mkCartesian (lit 1) (lit 0) (lit 0)) (observer_radius fr))
         direction in
  let direction := vdiv direction (norm direction) in
  let d_from_plane := observer_radius fr * x direction in
  let rep := represent_as_unit fr in
  let distance := map (fun D => d_from_plane / dot D direction) rep in
  ret distance.
End Methods.
End PlanarScreen.

(** ** The two screens a frame can be given *)

Module Screen.
Inductive t : Type :=
| Spherical (s : SphericalScreen.t)
| Planar (p : PlanarScreen.t).

(** [screen.calculate_distance(frame)], dispatched on the class. *)
Definition calculate_distance {T : Type} `{Scalar T} `{Coordinates T}
    (screen : t) (frame : loc) : Py (gmap loc pyobj) (list T) :=
  match screen with
  | Spherical s => SphericalScreen.calculate_distance s frame
  | Planar p => PlanarScreen.calculate_distance p frame
  end.
End Screen.

(** ** A concrete coordinate system *)

(** Frames whose axes are those of a heliocentric system, the observer on
    the negative x axis: a point at heliocentric position [p] is at
    [p + (r, 0, 0)] for an observer at distance [r], so the centre of the
    reference body is at [(r, 0, 0)], as in a helioprojective frame. *)
Module Aligned.
Record frame (T : Type) : Type :=
  mkframe { distance : T; sky : list (Cartesian T) }.
Arguments mkframe {T} distance sky.
Arguments distance {T} f.
Arguments sky {T} f.

#[export] Instance coordinates {T : Type} `{Scalar T} : Coordinates T := {|
  Time := Z;
  SkyCoord := Z * Cartesian T;
  HGSCoord := Cartesian T;
  Frame := frame T;
  obstime c := fst c;
  transform_to_hgs c _ := snd c;
  hgs_radius h := norm h;
  transform_to_cartesian c f :=
    mkCartesian (add (x (snd c)) (distance f)) (y (snd c)) (z (snd c));
  observer_radius f := distance f;
  represent_as_unit f := sky f
|}.

(** The vector with the given integer components. *)
Definition vec {T : Type} `{Scalar T} (v : Z * Z * Z) : Cartesian T :=
  let '(a, b, c) := v in mkCartesian (lit a) (lit b) (lit c).

(** The point at the given heliocentric position, at epoch 0. *)
Definition point {T : Type} `{Scalar T} (p : Z * Z * Z)
  : Z * Cartesian T :=
  (0%Z, vec p).

(** The frame of an observer at distance [r] with the given lines of
    sight. *)
Definition frame_at {T : Type} `{Scalar T} (r : Z) (ds : list (Z * Z * Z))
  : frame T :=
  mkframe (lit r) (map vec ds).

(** A store with one point, at reference 1, and one frame, at
    reference 2. *)
Definition world {T : Type} `{Scalar T}
    (p : Z * Z * Z) (r : Z) (ds : list (Z * Z * Z))
  : gmap loc (@pyobj T coordinates) :=
  <[1%positive := ObjSkyCoord (point p)]>
    (<[2%positive := ObjFrame (frame_at r ds)]> ∅).

(** The screens built on the point of such a store. *)
Definition spherical : SphericalScreen.t :=
  SphericalScreen.mk (BaseScreen.mk "spherical" false) 1%positive.

Definition planar : PlanarScreen.t :=
  PlanarScreen.mk (BaseScreen.mk "planar" false) 1%positive.
End Aligned.

(** ** Coordinates that carry their distances *)

(** A sky coordinate given in a spherical representation carries its
    distance from the centre of the reference body; nothing is computed
    to read it.  Here a sky coordinate is that distance together with its
    position in the frame. *)
Module Tabulated.
Record skycoord (T : Type) : Type :=
  mkskycoord { radius : T; position : Cartesian T }.
Arguments mkskycoord {T} radius position.
Arguments radius {T} _.
Arguments position {T} _.

#[export] Instance coordinates {T : Type} `{Scalar T} : Coordinates T := {|
  Time := Z;
  SkyCoord := skycoord T;
  HGSCoord := T;
  Frame := Aligned.frame T;
  obstime _ := 0%Z;
  transform_to_hgs c _ := radius c;
  hgs_radius r := r;
  transform_to_cartesian c _ := position c;
  observer_radius f := Aligned.distance f;
  represent_as_unit f := Aligned.sky f
|}.

(** The observer of a frame, at distance [r] from the centre of the
    reference body: the origin of the frame. *)
Definition observer {T : Type} `{Scalar T} (r : Z) : skycoord T :=
  mkskycoord (lit r) (Aligned.vec (0, 0, 0)%Z).

(** A store with one point, at reference 1, and one frame, at
    reference 2. *)
Definition world {T : Type} `{Scalar T}
    (c : skycoord T) (r : Z) (ds : list (Z * Z * Z))
  : gmap loc (@pyobj T coordinates) :=
  <[1%positive := ObjSkyCoord c]>
    (<[2%positive := ObjFrame (Aligned.frame_at r ds)]> ∅).
End Tabulated.

(** ** The geometry the screens are specified by *)

Section Geometry.
Context {T : Type} `{Scalar T}.
Local Open Scope scalar_scope.

(** The quadratic [t^2 - 2 (S.D) t + (|S|^2 - radius^2)] whose roots are
    the distances at which the line of sight [D] meets the sphere of
    centre [S]. *)
Definition sphere_quadratic (S : Cartesian T) (radius : T)
    (D : Cartesian T) (t : T) : T :=
  t * t - lit 2 * dot S D * t + (sq (norm S) - sq radius).

(** Its discriminant, as the source computes it: [b**2 - 4*c]. *)
Definition discriminant (S : Cartesian T) (radius : T) (D : Cartesian T)
  : T :=
  sq (lit (-2) * dot S D) - lit 4 * (sq (norm S) - sq radius).

(** The unit vector along [v]. *)
Definition normalize (v : Cartesian T) : Cartesian T := vdiv v (norm v).

Definition x_axis : Cartesian T := mkCartesian (lit 1) (lit 0) (lit 0).

(** The normal of the plane: the unit vector of
    [observerRadius * xAxis - vantagePoint]. *)
Definition plane_normal (observerRadius : T) (vantage : Cartesian T)
  : Cartesian T :=
  normalize (vsub (scale x_axis observerRadius) vantage).

(** [t = d / (D.n)] with [d = observerRadius * n.x]. *)
Definition plane_distance (observerRadius : T) (vantage D : Cartesian T)
  : T :=
  let n := plane_normal observerRadius vantage in
  let d := observerRadius * x n in
  d / dot D n.
End Geometry.

(** ** Computations that leave the store as it is *)

Definition read_only {H A : Type} (m : Py H A) : Prop :=
  forall h : H, snd (m h) = h.

(** ** Collaborators that act on the store *)

(** [Coordinates] reads the methods of the sky coordinates and of the
    frame as functions of the state of these objects.  A method of a
    Python object can also update the object it is called on: a frame can
    keep the representation it was asked for.  Here the calls the screens
    make are computations over the store, and [calculate_distance] is
    written over them. *)
Module Calling.
Record collaborators (H T : Type) : Type := {
  (** [point.transform_to(frame).cartesian] *)
  call_transform_to : loc -> loc -> Py H (Cartesian T);
  (** [point.transform_to(HeliographicStonyhurst(obstime=point.obstime)).radius],
      what the property [radius] asks of the centre *)
  call_radius : loc -> Py H T;
  (** [frame.observer.radius] *)
  call_observer_radius : loc -> Py H T;
  (** [frame.represent_as(UnitSphericalRepresentation)] *)
  call_represent_as : loc -> Py H (list (Cartesian T))
}.
Arguments call_transform_to {H T} _ _ _.
Arguments call_radius {H T} _ _.
Arguments call_observer_radius {H T} _ _.
Arguments call_represent_as {H T} _ _.

Section Screens.
Context {H T : Type} `{Scalar T} (m : collaborators H T).
Local Open Scope scalar_scope.

(** [SphericalScreen.calculate_distance(self, frame)] *)
Definition SphericalScreen_calculate_distance (self : SphericalScreen.t)
    (frame : loc) : Py H (list T) :=
  sphere_center <- call_transform_to m (SphericalScreen.center self) frame ;;
  r <- call_radius m (SphericalScreen.center self) ;;
  let c := sq (norm sphere_center) - sq r in
  rep <- call_represent_as m frame ;;
  let b := map (fun D => lit (-2) * dot sphere_center D) rep in
  let distance :=
    map (fun bi => (lit (-1) * bi + sqrt (sq bi - lit 4 * c)) / lit 2) b in
  ret distance.

(** [PlanarScreen.calculate_distance(self, frame)]; it reads
    [frame.observer.radius] twice. *)
Definition PlanarScreen_calculate_distance (self : PlanarScreen.t)
    (frame : loc) : Py H (list T) :=
  direction <- call_transform_to m (PlanarScreen.vantage_point self) frame ;;
  r <- call_observer_radius m frame ;;
  let direction :=
    vsub (scale (mkCartesian (lit 1) (lit 0) (lit 0)) r) direction in
  let direction := vdiv direction (norm direction) in
  r <- call_observer_radius m frame ;;
  let d_from_plane := r * x direction in
  rep <- call_represent_as m frame ;;
  let distance := map (fun D => d_from_plane / dot D direction) rep in
  ret distance.

(** [screen.calculate_distance(frame)], dispatched on the class. *)
Definition calculate_distance (screen : Screen.t) (frame : loc)
  : Py H (list T) :=
  match screen with
  | Screen.Spherical s => SphericalScreen_calculate_distance s frame
  | Screen.Planar p => PlanarScreen_calculate_distance p frame
  end.

(** The calls [calculate_distance] makes, in the order in which it makes
    them, and nothing else. *)
Definition calls (screen : Screen.t) (frame : loc) : Py H unit :=
  match screen with
  | Screen.Spherical s =>
      _ <- call_transform_to m (SphericalScreen.center s) frame ;;
      _ <- call_radius m (SphericalScreen.center s) ;;
      _ <- call_represent_as m frame ;;
      ret tt
  | Screen.Planar p =>
      _ <- call_transform_to m (PlanarScreen.vantage_point p) frame ;;
      _ <- call_observer_radius m frame ;;
      _ <- call_observer_radius m frame ;;
      _ <- call_represent_as m frame ;;
      ret tt
  end.

(** No call changes the store. *)
Definition quiet : Prop :=
  (forall point frame, read_only (call_transform_to m point frame))
  /\ (forall point, read_only (call_radius m point))
  /\ (forall frame, read_only (call_observer_radius m frame))
  /\ (forall frame, read_only (call_represent_as m frame)).
End Screens.

(** The collaborators of [Coordinates]: each call follows the references
    and leaves the objects as they are. *)
Definition of_coordinates {T : Type} `{Coordinates T}
  : collaborators (gmap loc pyobj) T := {|
  call_transform_to point frame :=
    c <- load_skycoord point ;;
    f <- load_frame frame ;;
    ret (transform_to_cartesian c f);
  call_radius point :=
    c <- load_skycoord point ;;
    ret (hgs_radius (transform_to_hgs c (obstime c)));
  call_observer_radius frame :=
    f <- load_frame frame ;;
    ret (observer_radius f);
  call_represent_as frame :=
    f <- load_frame frame ;;
    ret (represent_as_unit f)
|}.

(** Objects of which the frame keeps the representation it was asked
    for, as a frame with a cache of representations does: the first
    [represent_as] fills the cache, the next ones read it. *)
Inductive cached (T : Type) : Type :=
| CPoint (radius : T) (position : Cartesian T)
| CFrame (observer : T) (sky : list (Cartesian T))
         (cache : option (list (Cartesian T))).
Arguments CPoint {T} radius position.
Arguments CFrame {T} observer sky cache.

Definition caching {T : Type} : collaborators (gmap loc (cached T)) T := {|
  call_transform_to point frame := fun h =>
    match h !! point, h !! frame with
    | Some (CPoint _ position), Some (CFrame _ _ _) => (Returns position, h)
    | _, _ => (Raises AttributeError, h)
    end;
  call_radius point := fun h =>
    match h !! point with
    | Some (CPoint radius _) => (Returns radius, h)
    | _ => (Raises AttributeError, h)
    end;
  call_observer_radius frame := fun h =>
    match h !! frame with
    | Some (CFrame observer _ _) => (Returns observer, h)
    | _ => (Raises AttributeError, h)
    end;
  call_represent_as frame := fun h =>
    match h !! frame with
    | Some (CFrame observer sky None) =>
        (Returns sky, <[frame := CFrame observer sky (Some sky)]> h)
    | Some (CFrame _ _ (Some rep)) => (Returns rep, h)
    | _ => (Raises AttributeError, h)
    end
|}.
End Calling.

(** * File and URI helpers: sunpy/util/io.py *)

(** ** Python's [re], as far as [is_uri] uses it *)

Module Re.
(** A pattern: [Bol] is [^], [Set_] a bracketed set given by its ranges
    (a single character is the range from itself to itself); [Never] and
    [Alt] only arise while matching. *)
Inductive t : Type :=
| Never
| Empty
| Bol
| Set_ (items : list (ascii * ascii))
| Cat (r1 r2 : t)
| Alt (r1 r2 : t)
| Star (r : t).

(** One literal character. *)
Definition Lit (c : ascii) : t := Set_ [(c, c)].

(** Membership in a set: some range holds the code point. *)
Definition in_set (c : ascii) (items : list (ascii * ascii)) : bool :=
  existsb (fun '(lo, hi) => Ascii.leb lo c && Ascii.leb c hi) items.

(** Can the pattern match without consuming anything?  [start] tells
    whether the position is the beginning of the string. *)
Fixpoint nullable (start : bool) (r : t) : bool :=
  match r with
  | Never => false
  | Empty => true
  | Bol => start
  | Set_ _ => false
  | Cat r1 r2 => nullable start r1 && nullable start r2
  | Alt r1 r2 => nullable start r1 || nullable start r2
  | Star _ => true
  end.

(** What is left of the pattern once it has consumed [c]. *)
Fixpoint deriv (start : bool) (c : ascii) (r : t) : t :=
  match r with
  | Never | Empty | Bol => Never
  | Set_ items => if in_set c items then Empty else Never
  | Cat r1 r2 =>
      Alt (Cat (deriv start c r1) r2)
          (if nullable start r1 then deriv start c r2 else Never)
  | Alt r1 r2 => Alt (deriv start c r1) (deriv start c r2)
  | Star r1 => Cat (deriv start c r1) (Star r1)
  end.

(** Does the pattern match some prefix of [s]? *)
Fixpoint search_prefix (start : bool) (r : t) (s : string) : bool :=
  nullable start r
  || match s with
     | EmptyString => false
     | String c s' => search_prefix false (deriv start c r) s'
     end.

(** [bool(pattern.match(s))]: a match anchored at the beginning. *)
Definition match_ (r : t) (s : string) : bool := search_prefix true r s.

(** The words a pattern matches, from a position that is or is not the
    beginning of the string. *)
Inductive matches : bool -> t -> string -> Prop :=
| matches_empty start : matches start Empty EmptyString
| matches_bol : matches true Bol EmptyString
| matches_set start c items :
    in_set c items = true -> matches start (Set_ items) (String c EmptyString)
| matches_cat start r1 r2 w1 w2 :
    matches start r1 w1 ->
    matches (start && String.eqb w1 EmptyString) r2 w2 ->
    matches start (Cat r1 r2) (String.append w1 w2)
| matches_alt_l start r1 r2 w :
    matches start r1 w -> matches start (Alt r1 r2) w
| matches_alt_r start r1 r2 w :
    matches start r2 w -> matches start (Alt r1 r2) w
| matches_star_nil start r : matches start (Star r) EmptyString
| matches_star_cons start r c w1 w2 :
    matches start r (String c w1) ->
    matches false (Star r) w2 ->
    matches start (Star r) (String.append (String c w1) w2).
End Re.

(** ** The functions of io.py *)

Module io.
(** What can be raised: the ValueError of [parse_path], the RuntimeError
    of [Path.expanduser()], the AttributeError of a method that is not
    there, or whatever else an [Exception] is. *)
Inductive exception : Type :=
| ValueError (message : string)
| RuntimeError (message : string)
| AttributeError (message : string)
| Exception (message : string).

Inductive result (A : Type) : Type :=
| Ok (a : A)
| Err (e : exception).
Arguments Ok {A} a.
Arguments Err {A} e.

Definition and_then {A B : Type} (m : result A) (k : A -> result B)
  : result B :=
  match m with
  | Ok a => k a
  | Err e => Err e
  end.

Notation "x <~ m ;; k" := (and_then m (fun x => k))
  (at level 100, m at next level, right associativity).

(** [sorted(l)]: a stable sort that only asks for [<]. *)
Fixpoint insert {A : Type} (lt : A -> A -> bool) (a : A) (l : list A)
  : list A :=
  match l with
  | [] => [a]
  | b :: l' => if lt b a then b :: insert lt a l' else a :: b :: l'
  end.

Fixpoint sorted {A : Type} (lt : A -> A -> bool) (l : list A) : list A :=
  match l with
  | [] => []
  | a :: l' => insert lt a (sorted lt l')
  end.

(** [for x in l: read_files += body(x)], from the list read so far. *)
Definition extend_each {X A : Type} (l : list X)
    (body : X -> result (list A)) (read_files : result (list A))
  : result (list A) :=
  fold_left (fun acc x => read_files <~ acc ;;
                          r <~ body x ;;
                          Ok (read_files ++ r))
            l read_files.

(** [_RFC3896_ = re.compile(r"^[A-Za-z][A-Za-z0-9+\-+.]*://")] *)
Definition _RFC3896_ : Re.t :=
  Re.Cat Re.Bol
    (Re.Cat (Re.Set_ [("A", "Z"); ("a", "z")]%char)
       (Re.Cat (Re.Star (Re.Set_ [("A", "Z"); ("a", "z"); ("0", "9");
                                  ("+", "+"); ("-", "-"); ("+", "+");
                                  (".", ".")]%char))
          (Re.Cat (Re.Lit ":") (Re.Cat (Re.Lit "/") (Re.Lit "/"))))).

(** [s.startswith(prefixes)] for a tuple of prefixes. *)
Definition startswith (s : string) (prefixes : list string) : bool :=
  existsb (fun p => String.prefix p s) prefixes.

(** ** fsspec: what [parse_uri] asks of an OpenFile *)

Record filesystem : Type := {
  isfile : string -> bool;
  isdir : string -> bool;
  glob : string -> list string;
  unstrip_protocol : string -> string
}.

Record OpenFile : Type := { fs : filesystem; path : string }.

(** The loop of [parse_uri], from the list read so far. *)
Definition parse_uri_loop {K A : Type} (obj_list : list OpenFile)
    (f : string -> K -> result (list A)) (kwargs : K)
    (read_files : result (list A)) : result (list A) :=
  fold_left
    (fun acc obj =>
       read_files <~ acc ;;
       let fs := fs obj in
       let path := path obj in
       if isfile fs path then
         let uri := unstrip_protocol fs path in
         r <~ f uri kwargs ;;
         Ok (read_files ++ r)
       else if isdir fs path then
         extend_each (sorted String.ltb (glob fs (String.append path "/*")))
           (fun afile => let uri := unstrip_protocol fs afile in f uri kwargs)
           (Ok read_files)
       else Ok read_files)
    obj_list read_files.

(** [parse_uri(obj_list, f, **kwargs)] *)
Definition parse_uri {K A : Type} (obj_list : list OpenFile)
    (f : string -> K -> result (list A)) (kwargs : K) : result (list A) :=
  parse_uri_loop obj_list f kwargs (Ok []).

(** ** pathlib, os and glob: what [parse_path] asks of them *)

(** The paths themselves: their order, [str(path)] and
    [pathlib.Path(string)]. *)
Class pathlib : Type := {
  Path : Type;
  Path_lt : Path -> Path -> bool;
  str : Path -> string;
  Path_of_str : string -> Path
}.

(** The file system behind them.  [Path.expanduser()], [Path.is_file()]
    and [Path.is_dir()] may raise. *)
Record os `{pathlib} : Type := {
  expanduser : Path -> result Path;
  Path_is_file : Path -> result bool;
  Path_is_dir : Path -> result bool;
  Path_glob : Path -> string -> list Path;
  glob_glob : string -> list string
}.

(** The argument of a function that tests what it was given.  A
    [VPathLike] is an [os.PathLike] that is not a [pathlib.Path], such as
    a [PurePosixPath] or an [os.DirEntry]: an object of the class [cls]
    with an [__fspath__] and no [expanduser]. *)
Inductive value `{pathlib} : Type :=
| VStr (s : string)
| VPath (p : Path)
| VPathLike (cls fspath : string)
| VNone.

(** The message of the AttributeError for a method that an object of the
    class [cls] does not have. *)
Definition no_attribute (cls method : string) : string :=
  String.append "'"
    (String.append cls
       (String.append "' object has no attribute '"
          (String.append method "'"))).

Section Functions.
Context `{pathlib}.

(** [is_file(path)] *)
Definition is_file (sys : os) (path : Path) : bool :=
  match Path_is_file sys path with
  | Ok b => b
  | Err _ => false
  end.

(** [is_dir(path)] *)
Definition is_dir (sys : os) (path : Path) : bool :=
  match Path_is_dir sys path with
  | Ok b => b
  | Err _ => false
  end.

(** [is_uri(obj)]: anything but a string makes [match] raise, which is
    caught. *)
Definition is_uri (obj : value) : bool :=
  match obj with
  | VStr s =>
      Re.match_ _RFC3896_ s && negb (startswith s ["http://"; "https://"])
  | _ => false
  end.

(** [parse_path(path, f, **kwargs)] *)
Definition parse_path {K A : Type} (sys : os) (path : value)
    (f : Path -> K -> result (list A)) (kwargs : K) : result (list A) :=
  match path with
  | VPath path =>
      path <~ expanduser sys path ;;
      if is_file sys path then f path kwargs
      else if is_dir sys path then
        extend_each (sorted Path_lt (Path_glob sys path "*"))
          (fun afile => f afile kwargs) (Ok [])
      else if negb (bool_decide (glob_glob sys (str path) = [])) then
        extend_each (sorted String.ltb (glob_glob sys (str path)))
          (fun afile => let afile := Path_of_str afile in f afile kwargs)
          (Ok [])
      else
        Err (ValueError
               (String.append "Did not find any files at " (str path)))
  | VPathLike cls _ => Err (AttributeError (no_attribute cls "expanduser"))
  | VStr _ | VNone => Err (ValueError "path must be a pathlib.Path object")
  end.
End Functions.

(** ** What the functions of io.py are specified by *)

(** [all(test(c) for c in s)] *)
Fixpoint all_chars (test : ascii -> bool) (s : string) : bool :=
  match s with
  | EmptyString => true
  | String c s' => test c && all_chars test s'
  end.

Definition is_letter (c : ascii) : bool :=
  (Ascii.leb "A" c && Ascii.leb c "Z") || (Ascii.leb "a" c && Ascii.leb c "z").

Definition is_digit (c : ascii) : bool := Ascii.leb "0" c && Ascii.leb c "9".

(** A character of a scheme after the first: a letter, a digit, [+], [-]
    or [.]. *)
Definition is_scheme_char (c : ascii) : bool :=
  is_letter c || is_digit c
  || Ascii.eqb c "+" || Ascii.eqb c "-" || Ascii.eqb c ".".

(** A scheme: a letter followed by scheme characters. *)
Definition is_scheme (s : string) : bool :=
  match s with
  | EmptyString => false
  | String c s' => is_letter c && all_chars is_scheme_char s'
  end.

(** Reading the items one after the other: the lists read are
    concatenated, and the first failure is the failure of the whole. *)
Fixpoint read_all {X A : Type} (body : X -> result (list A)) (l : list X)
  : result (list A) :=
  match l with
  | [] => Ok []
  | x :: l' => r <~ body x ;; rs <~ read_all body l' ;; Ok (r ++ rs)
  end.

(** The URIs that stand for one OpenFile: itself when it is a file, its
    sorted listing when it is a directory, nothing otherwise. *)
Definition uris_of (obj : OpenFile) : list string :=
  if isfile (fs obj) (path obj) then [unstrip_protocol (fs obj) (path obj)]
  else if isdir (fs obj) (path obj) then
    map (unstrip_protocol (fs obj))
        (sorted String.ltb (glob (fs obj) (String.append (path obj) "/*")))
  else [].

(** Two file systems with the same files, whatever the order in which
    they list them. *)
Definition same_listing (fs1 fs2 : filesystem) : Prop :=
  (forall p, isfile fs1 p = isfile fs2 p)
  /\ (forall p, isdir fs1 p = isdir fs2 p)
  /\ (forall p, unstrip_protocol fs1 p = unstrip_protocol fs2 p)
  /\ (forall pattern, Permutation (glob fs1 pattern) (glob fs2 pattern)).

(** [a <= b], as far as [<] tells. *)
Definition not_after {A : Type} (lt : A -> A -> bool) (a b : A) : Prop :=
  lt b a = false.

(** [<] is a strict total order. *)
Class LtOrder {A : Type} (lt : A -> A -> bool) : Prop := {
  lt_asym : forall a b, lt a b = true -> lt b a = false;
  lt_trans : forall a b c, lt a b = true -> lt b c = true -> lt a c = true;
  lt_connex : forall a b, lt a b = false -> lt b a = false -> a = b
}.

Section Found.
Context `{pathlib}.

(** The paths that stand for the argument of [parse_path], once expanded:
    itself when it is a file, its sorted entries when it is a directory,
    the sorted matches when it is a pattern that matches; or nothing at
    all. *)
Definition paths_of (sys : os) (path : Path) : option (list Path) :=
  if is_file sys path then Some [path]
  else if is_dir sys path then Some (sorted Path_lt (Path_glob sys path "*"))
  else match glob_glob sys (str path) with
       | [] => None
       | found => Some (map Path_of_str (sorted String.ltb found))
       end.

(** Two systems with the same files, whatever the order in which they
    list them. *)
Definition same_files (sys1 sys2 : os) : Prop :=
  (forall p, expanduser sys1 p = expanduser sys2 p)
  /\ (forall p, Path_is_file sys1 p = Path_is_file sys2 p)
  /\ (forall p, Path_is_dir sys1 p = Path_is_dir sys2 p)
  /\ (forall p pattern,
        Permutation (Path_glob sys1 p pattern) (Path_glob sys2 p pattern))
  /\ (forall pattern,
        Permutation (glob_glob sys1 pattern) (glob_glob sys2 pattern)).
End Found.

(** ** Concrete paths and file systems *)

(** Paths that are their own strings, in the order of strings. *)
Definition string_paths : pathlib := {|
  Path := string;
  Path_lt := String.ltb;
  str p := p;
  Path_of_str s := s
|}.

(** An fsspec file system in memory: the files [files], all of them in
    the one directory [dir], listed in the order given. *)
Definition memory (dir : string) (files : list string) : filesystem := {|
  isfile p := bool_decide (p ∈ files);
  isdir p := bool_decide (p = dir);
  glob pattern :=
    if bool_decide (pattern = String.append dir "/*") then files else [];
  unstrip_protocol p := String.append "memory://" p
|}.

(** The same for [pathlib] and [glob]; no user has a home directory, so
    [Path.expanduser()] raises on a path that starts with a tilde;
    [Path.is_file()] raises on the paths of [broken], and no pattern
    matches. *)
Definition disk (dir : string) (files broken : list string)
  : @os string_paths :=
  @Build_os string_paths
    (fun p => if String.prefix "~" p
              then Err (RuntimeError "Could not determine home directory.")
              else Ok p)
    (fun p => if bool_decide (p ∈ broken) then Err (Exception "OSError")
              else Ok (bool_decide (p ∈ files)))
    (fun p => Ok (bool_decide (p = dir)))
    (fun p pattern =>
       if bool_decide (p = dir /\ pattern = "*"%string) then files else [])
    (fun _ => []).
End io.

(** * Properties *)

(** ** Running the monad *)

Section ReadOnly.
Context {H : Type}.

Lemma read_only_ret {A : Type} (a : A) : read_only (H := H) (ret a).
Proof. intros h. reflexivity. Qed.

Lemma read_only_bind {A B : Type} (m : Py H A) (k : A -> Py H B) :
  read_only m -> (forall a, read_only (k a)) -> read_only (bind m k).
Proof.
  intros Hm Hk h. unfold bind.
  specialize (Hm h). destruct (m h) as [[a | e] h']; simpl in *; subst h'.
  - apply Hk.
  - reflexivity.
Qed.
End ReadOnly.

Section Loads.
Context {T : Type} `{Coordinates T}.
Implicit Types h : gmap loc pyobj.

Lemma load_skycoord_at h (l : loc) (c : SkyCoord) :
  h !! l = Some (ObjSkyCoord c) -> load_skycoord l h = (Returns c, h).
Proof. intros E. unfold load_skycoord. rewrite E. reflexivity. Qed.

Lemma load_frame_at h (l : loc) (f : Frame) :
  h !! l = Some (ObjFrame f) -> load_frame l h = (Returns f, h).
Proof. intros E. unfold load_frame. rewrite E. reflexivity. Qed.

Lemma read_only_load_skycoord (l : loc) : read_only (load_skycoord l).
Proof.
  intros h. unfold load_skycoord.
  destruct (h !! l) as [[c | f] | ]; reflexivity.
Qed.

Lemma read_only_load_frame (l : loc) : read_only (load_frame l).
Proof.
  intros h. unfold load_frame.
  destruct (h !! l) as [[c | f] | ]; reflexivity.
Qed.
End Loads.

Section Methods.
Context {T : Type} `{Scalar T} `{Coordinates T}.
Implicit Types h : gmap loc pyobj.

Lemma radius_at h (s : SphericalScreen.t) (c : SkyCoord) :
  h !! SphericalScreen.center s = Some (ObjSkyCoord c) ->
  SphericalScreen.radius s h
  = (Returns (hgs_radius (transform_to_hgs c (obstime c))), h).
Proof.
  intros E.
  unfold SphericalScreen.radius, SphericalScreen.center_hgs, bind, ret.
  rewrite (load_skycoord_at _ _ _ E). reflexivity.
Qed.

(** The value the spherical screen computes for one line of sight. *)
Lemma spherical_at h (s : SphericalScreen.t) (frame : loc)
    (c : SkyCoord) (f : Frame) :
  h !! SphericalScreen.center s = Some (ObjSkyCoord c) ->
  h !! frame = Some (ObjFrame f) ->
  SphericalScreen.calculate_distance s frame h
  = (Returns
       (map (fun D =>
               let S := transform_to_cartesian c f in
               let r := hgs_radius (transform_to_hgs c (obstime c)) in
               div (add (mul (lit (-1)) (mul (lit (-2)) (dot S D)))
                        (sqrt (discriminant S r D)))
                   (lit 2))
            (represent_as_unit f)),
     h).
Proof.
  intros Ec Ef.
  unfold SphericalScreen.calculate_distance, bind.
  rewrite (load_skycoord_at _ _ _ Ec), (load_frame_at _ _ _ Ef).
  rewrite (radius_at _ _ _ Ec). unfold ret.
  rewrite map_map. reflexivity.
Qed.

(** The value the planar screen computes for one line of sight. *)
Lemma planar_at h (p : PlanarScreen.t) (frame : loc)
    (vp : SkyCoord) (f : Frame) :
  h !! PlanarScreen.vantage_point p = Some (ObjSkyCoord vp) ->
  h !! frame = Some (ObjFrame f) ->
  PlanarScreen.calculate_distance p frame h
  = (Returns
       (map (fun D =>
               let direction :=
                 vsub (scale (mkCartesian (lit 1) (lit 0) (lit 0))
                             (observer_radius f))
                      (transform_to_cartesian vp f) in
               let direction := vdiv direction (norm direction) in
               div (mul (observer_radius f) (x direction))
                   (dot D direction))
            (represent_as_unit f)),
     h).
Proof.
  intros Ev Ef.
  unfold PlanarScreen.calculate_distance, bind.
  rewrite (load_skycoord_at _ _ _ Ev), (load_frame_at _ _ _ Ef).
  reflexivity.
Qed.
End Methods.

(** ** What calculate_distance writes *)

Section Writes.
Context {H T : Type} `{Scalar T} (m : Calling.collaborators H T).

Lemma read_only_calls (screen : Screen.t) (frame : loc) :
  Calling.quiet m -> read_only (Calling.calls m screen frame).
Proof.
  intros (Ht & Hr & Ho & Hrep).
  destruct screen as [s | p]; simpl;
    repeat (apply read_only_bind; [ auto | intros ? ]);
    apply read_only_ret.
Qed.

End Writes.

Section WritesOfCoordinates.
Context {T : Type} `{Scalar T} `{Coordinates T}.
Implicit Types h : gmap loc pyobj.

(** The collaborators of [Coordinates] change nothing. *)
Lemma of_coordinates_quiet : Calling.quiet Calling.of_coordinates.
Proof.
  repeat split; intros; simpl;
    repeat (apply read_only_bind; [ | intros ? ]);
    first [ apply read_only_load_skycoord
          | apply read_only_load_frame
          | apply read_only_ret ].
Qed.

(** Over them, [calculate_distance] is the method of the screens. *)
Lemma of_coordinates_calculate_distance (screen : Screen.t) (frame : loc) h :
  Calling.calculate_distance Calling.of_coordinates screen frame h
  = Screen.calculate_distance screen frame h.
Proof.
  destruct screen as [s | p]; simpl.
  - unfold Calling.SphericalScreen_calculate_distance,
      SphericalScreen.calculate_distance, SphericalScreen.radius,
      SphericalScreen.center_hgs. simpl.
    unfold bind, ret, load_skycoord, load_frame.
    destruct (h !! SphericalScreen.center s) as [[c | f] | ] eqn:Ec;
      try reflexivity.
    destruct (h !! frame) as [[c' | f] | ] eqn:Ef; try reflexivity.
    rewrite ?Ec, ?Ef. reflexivity.
  - unfold Calling.PlanarScreen_calculate_distance,
      PlanarScreen.calculate_distance. simpl.
    unfold bind, ret, load_skycoord, load_frame.
    destruct (h !! PlanarScreen.vantage_point p) as [[c | f] | ] eqn:Ev;
      try reflexivity.
    destruct (h !! frame) as [[c' | f] | ] eqn:Ef; try reflexivity.
    rewrite ?Ef. reflexivity.
Qed.
End WritesOfCoordinates.

(** ** The derived radius, the base class, the plane *)

Section Generic.
Context {T : Type} `{Scalar T} `{Coordinates T}.
Implicit Types h : gmap loc pyobj.

(** C8. [radius] is read off the centre each time it is accessed: it is
    the distance of the centre, as the store has it now, from the centre
    of the reference body at the centre's own epoch; once the object the
    screen refers to has changed, the next access gives the radius of
    the new state, and the access itself changes nothing. *)
Theorem radius_rederived_on_access (s : SphericalScreen.t) h
    (c : SkyCoord) :
  h !! SphericalScreen.center s = Some (ObjSkyCoord c) ->
  SphericalScreen.radius s h
  = (Returns (hgs_radius (transform_to_hgs c (obstime c))), h)
  /\ forall c' : SkyCoord,
       let h' := <[SphericalScreen.center s := ObjSkyCoord c']> h in
       SphericalScreen.radius s h'
       = (Returns (hgs_radius (transform_to_hgs c' (obstime c'))), h').
Proof.
  intros E. split.
  - apply radius_at, E.
  - intros c' h'. apply radius_at. subst h'. apply lookup_insert_eq.
Qed.

End Generic.

(** C9, as the code has it. The base class can be constructed: the object
    carries [type] and [only_off_disk] (False when not given).  What fails
    is its [calculate_distance], with NotImplementedError, whatever the
    store. *)
Theorem base_screen_constructs_and_cannot_measure :
  (forall (type : string) (only_off_disk : option bool),
     BaseScreen.init type only_off_disk
     = Returns (BaseScreen.mk type (default false only_off_disk)))
  /\ (forall (H T : Type) (b : BaseScreen.t) (h : H),
        BaseScreen.calculate_distance (T := T) b h
        = (Raises NotImplementedError, h)).
Proof. split; reflexivity. Qed.

(** C9 as claimed fails: constructing the base class with a type string
    returns an object instead of raising. *)
Lemma base_screen_init_does_not_raise :
  ~ (forall (type : string) (only_off_disk : option bool),
       exists e : exn, BaseScreen.init type only_off_disk = Raises e)
  /\ BaseScreen.init "spherical" None
     = Returns (BaseScreen.mk "spherical" false).
Proof.
  split; [ | reflexivity ].
  intros Hc. destruct (Hc "spherical"%string None) as [e He]. discriminate He.
Qed.

(** ** The sphere, in exact arithmetic *)

Section RealRoots.
Local Open Scope R_scope.

(** [sqrt (b^2 - 4 c)] for [b = -2 p]. *)
Lemma sqrt_discriminant (p q : R) :
  0 <= p * p - q ->
  R_sqrt.sqrt ((-2 * p) * (-2 * p) - 4 * q) = 2 * R_sqrt.sqrt (p * p - q).
Proof.
  intros Hd. apply sqrt_lem_1.
  - lra.
  - pose proof (sqrt_pos (p * p - q)). lra.
  - pose proof (sqrt_sqrt (p * p - q) Hd). nra.
Qed.

(** The far solution of the source is [p + sqrt (p^2 - q)]. *)
Lemma far_solution (p q : R) :
  0 <= p * p - q ->
  (-1 * (-2 * p) + R_sqrt.sqrt ((-2 * p) * (-2 * p) - 4 * q)) / 2
  = p + R_sqrt.sqrt (p * p - q).
Proof. intros Hd. rewrite (sqrt_discriminant p q Hd). lra. Qed.

(** [p + sqrt (p^2 - q)] solves [t^2 - 2 p t + q = 0]. *)
Lemma far_solution_is_root (p q : R) :
  0 <= p * p - q ->
  let t := p + R_sqrt.sqrt (p * p - q) in
  t * t - 2 * p * t + q = 0.
Proof.
  intros Hd t. subst t.
  pose proof (sqrt_sqrt (p * p - q) Hd). nra.
Qed.

Lemma near_solution_is_root (p q : R) :
  0 <= p * p - q ->
  let t := p - R_sqrt.sqrt (p * p - q) in
  t * t - 2 * p * t + q = 0.
Proof.
  intros Hd t. subst t.
  pose proof (sqrt_sqrt (p * p - q) Hd). nra.
Qed.

(** No solution lies beyond it. *)
Lemma far_solution_is_largest (p q t' : R) :
  0 <= p * p - q ->
  t' * t' - 2 * p * t' + q = 0 ->
  t' <= p + R_sqrt.sqrt (p * p - q).
Proof.
  intros Hd Hr.
  pose proof (sqrt_sqrt (p * p - q) Hd).
  pose proof (sqrt_pos (p * p - q)).
  nra.
Qed.

(** [|S|^2], computed as [norm()**2], is the sum of the squares. *)
Lemma sq_norm (S : Cartesian R) :
  sq (norm S) = x S * x S + y S * y S + z S * z S.
Proof.
  unfold sq, norm. simpl. apply sqrt_sqrt.
  pose proof (Rle_0_sqr (x S)). pose proof (Rle_0_sqr (y S)).
  pose proof (Rle_0_sqr (z S)). unfold Rsqr in *. lra.
Qed.
End RealRoots.

Section RealSphere.
Context `{Coordinates R}.
Implicit Types h : gmap loc pyobj.
Local Open Scope R_scope.

(** The discriminant is four times [(S.D)^2 - (|S|^2 - radius^2)]. *)
Lemma discriminant_real (S : Cartesian R) (radius : R) (D : Cartesian R) :
  discriminant S radius D
  = 4 * (dot S D * dot S D - (sq (norm S) - sq radius)).
Proof. unfold discriminant, sq. simpl. lra. Qed.

Lemma sphere_quadratic_real (S : Cartesian R) (radius : R)
    (D : Cartesian R) (t : R) :
  sphere_quadratic S radius D t
  = t * t - 2 * dot S D * t + (sq (norm S) - sq radius).
Proof. reflexivity. Qed.

(** C1, in exact arithmetic.  When the line of sight [D] crosses the
    sphere twice (positive discriminant), the distance that the
    computation of [calculate_distance] gives for it over the real
    numbers is [S.D + sqrt ((S.D)^2 - |S|^2 + radius^2)]: a root of the
    quadratic, with another root below it and none above. *)
Theorem spherical_far_root (s : SphericalScreen.t) (frame : loc) h
    (c : SkyCoord) (f : Frame) (i : nat) (D : Cartesian R) :
  h !! SphericalScreen.center s = Some (ObjSkyCoord c) ->
  h !! frame = Some (ObjFrame f) ->
  represent_as_unit f !! i = Some D ->
  let S := transform_to_cartesian c f in
  let radius := hgs_radius (transform_to_hgs c (obstime c)) in
  0 < discriminant S radius D ->
  exists (out : list R) (t : R),
    SphericalScreen.calculate_distance s frame h = (Returns out, h)
    /\ out !! i = Some t
    /\ t = dot S D
           + R_sqrt.sqrt (dot S D * dot S D - sq (norm S) + sq radius)
    /\ sphere_quadratic S radius D t = 0
    /\ (exists t', t' < t /\ sphere_quadratic S radius D t' = 0)
    /\ (forall t', sphere_quadratic S radius D t' = 0 -> t' <= t).
Proof.
  intros Ec Ef Ei S radius Hd.
  rewrite discriminant_real in Hd.
  set (p := dot S D) in *. set (q := sq (norm S) - sq radius) in *.
  assert (Hd0 : 0 <= p * p - q) by lra.
  eexists. exists (p + R_sqrt.sqrt (p * p - q)).
  split; [ apply (spherical_at _ _ _ _ _ Ec Ef) | ].
  split.
  { rewrite list_lookup_fmap, Ei. simpl. f_equal.
    fold S radius. unfold discriminant. fold p q.
    apply (far_solution p q Hd0). }
  split; [ subst q; f_equal; f_equal; lra | ].
  split; [ rewrite sphere_quadratic_real; fold p q;
           apply (far_solution_is_root p q Hd0) | ].
  split.
  - exists (p - R_sqrt.sqrt (p * p - q)). split.
    + assert (0 < R_sqrt.sqrt (p * p - q)) by (apply sqrt_lt_R0; lra). lra.
    + rewrite sphere_quadratic_real. fold p q.
      apply (near_solution_is_root p q Hd0).
  - intros t'. rewrite sphere_quadratic_real. fold p q.
    apply far_solution_is_largest, Hd0.
Qed.

(** C5, in exact arithmetic.  When the line of sight is tangent to the
    sphere (the discriminant is zero), the distance that the computation
    of [calculate_distance] gives for it over the real numbers is the
    one root [S.D] of the quadratic. *)
Theorem spherical_tangent_root (s : SphericalScreen.t) (frame : loc) h
    (c : SkyCoord) (f : Frame) (i : nat) (D : Cartesian R) :
  h !! SphericalScreen.center s = Some (ObjSkyCoord c) ->
  h !! frame = Some (ObjFrame f) ->
  represent_as_unit f !! i = Some D ->
  let S := transform_to_cartesian c f in
  let radius := hgs_radius (transform_to_hgs c (obstime c)) in
  discriminant S radius D = 0 ->
  exists out : list R,
    SphericalScreen.calculate_distance s frame h = (Returns out, h)
    /\ out !! i = Some (dot S D)
    /\ forall t, sphere_quadratic S radius D t = 0 <-> t = dot S D.
Proof.
  intros Ec Ef Ei S radius Hd.
  eexists. split; [ apply (spherical_at _ _ _ _ _ Ec Ef) | ].
  split.
  { rewrite list_lookup_fmap, Ei. simpl. f_equal. fold S radius.
    pose proof Hd as Hd'. unfold discriminant, sq, dot, norm in Hd'.
    simpl in Hd'. rewrite Hd', sqrt_0. unfold dot. simpl. lra. }
  rewrite discriminant_real in Hd.
  intros t. rewrite sphere_quadratic_real.
  set (p := dot S D) in *. set (q := sq (norm S) - sq radius) in *.
  split; intros Ht.
  - assert (E : (t - p) * (t - p) = 0) by nra.
    apply Rmult_integral in E. lra.
  - subst t. nra.
Qed.

End RealSphere.

(** ** IEEE arithmetic: what is not a number *)

Section FloatFacts.
Implicit Types a b : F64.t.

Lemma sqrt_of_negative a :
  F64.ltb a (lit 0) = true -> sqrt a = F64.nan.
Proof.
  destruct a as [sa | [ | ] | | [ | ] m e]; try discriminate; reflexivity.
Qed.

Lemma add_nan_r a : add a F64.nan = F64.nan.
Proof. destruct a; reflexivity. Qed.

Lemma mul_nan_r a : mul a F64.nan = F64.nan.
Proof. destruct a; reflexivity. Qed.

Lemma div_nan_l a : div F64.nan a = F64.nan.
Proof. reflexivity. Qed.

(** Dividing by a zero never gives a finite number. *)
Lemma div_by_zero_not_finite a b :
  F64.eqb b (lit 0) = true -> F64.is_finite (div a b) = false.
Proof.
  destruct b as [sb | [ | ] | | [ | ] m e]; try discriminate.
  intros _. destruct a; reflexivity.
Qed.

Lemma sub_self a : F64.zero_or_nan (sub a a) = true.
Proof.
  destruct a as [[ | ] | [ | ] | | s m e]; try reflexivity.
  simpl. rewrite Z.sub_diag. reflexivity.
Qed.

Lemma mul_zero_or_nan a b :
  F64.zero_or_nan a = true -> F64.zero_or_nan b = true ->
  F64.zero_or_nan (mul a b) = true.
Proof. destruct a, b; try discriminate; reflexivity. Qed.

Lemma add_zero_or_nan a b :
  F64.zero_or_nan a = true -> F64.zero_or_nan b = true ->
  F64.zero_or_nan (add a b) = true.
Proof.
  destruct a as [[ | ] | | | ], b as [[ | ] | | | ];
    try discriminate; reflexivity.
Qed.

Lemma sqrt_zero_or_nan a :
  F64.zero_or_nan a = true -> F64.zero_or_nan (sqrt a) = true.
Proof. destruct a; try discriminate; reflexivity. Qed.

Lemma div_zero_or_nan a b :
  F64.zero_or_nan a = true -> F64.zero_or_nan b = true -> div a b = F64.nan.
Proof. destruct a, b; try discriminate; reflexivity. Qed.

(** The vector that has no direction: normalising it gives NaN in every
    component. *)
Lemma normalize_degenerate (v : Cartesian F64.t) :
  F64.zero_or_nan (x v) = true -> F64.zero_or_nan (y v) = true ->
  F64.zero_or_nan (z v) = true ->
  normalize v = mkCartesian F64.nan F64.nan F64.nan.
Proof.
  intros Hx Hy Hz.
  assert (Hn : F64.zero_or_nan (norm v) = true).
  { unfold norm. apply sqrt_zero_or_nan.
    repeat apply add_zero_or_nan; apply mul_zero_or_nan; assumption. }
  unfold normalize, vdiv.
  rewrite !div_zero_or_nan by assumption. reflexivity.
Qed.

(** A plane whose normal is undefined is at no distance. *)
Lemma plane_distance_degenerate (r : F64.t) (v D : Cartesian F64.t) :
  v = scale x_axis r -> plane_distance r v D = F64.nan.
Proof.
  intros ->. unfold plane_distance, plane_normal.
  rewrite normalize_degenerate by (simpl; apply sub_self).
  unfold dot. simpl x. simpl y. simpl z.
  rewrite !mul_nan_r. reflexivity.
Qed.
End FloatFacts.

(** ** IEEE arithmetic: what stays a number *)

Section NotNaN.
Implicit Types a b c : F64.t.
Local Open Scope Z_scope.

Lemma shr_1_nonneg (mrs : shr_record) :
  0 <= shr_m mrs -> 0 <= shr_m (shr_1 mrs).
Proof.
  destruct mrs as [m r s]. simpl.
  destruct m as [ | [p | p | ] | p]; simpl; lia.
Qed.

Lemma iter_shr_1_nonneg (p : positive) (mrs : shr_record) :
  0 <= shr_m mrs -> 0 <= shr_m (SpecFloat.iter_pos shr_1 p mrs).
Proof.
  revert mrs. induction p as [p IH | p IH | ]; intros mrs Hm; simpl.
  - apply IH, IH, shr_1_nonneg, Hm.
  - apply IH, IH, Hm.
  - apply shr_1_nonneg, Hm.
Qed.

Lemma shr_fexp_nonneg (m e : Z) (l : location) :
  0 <= m -> 0 <= shr_m (fst (shr_fexp F64.prec F64.emax m e l)).
Proof.
  intros Hm. unfold shr_fexp, shr.
  assert (H0 : 0 <= shr_m (shr_record_of_loc m l)).
  { destruct l as [ | [ | | ]]; exact Hm. }
  destruct (fexp F64.prec F64.emax (Zdigits2 m + e) - e) as [ | p | p ];
    simpl; auto using iter_shr_1_nonneg.
Qed.

Lemma round_nearest_even_nonneg (m : Z) (l : location) :
  0 <= m -> 0 <= round_nearest_even m l.
Proof.
  intros Hm. destruct l as [ | [ | | ]]; simpl; try lia.
  destruct (Z.even m); lia.
Qed.

Lemma binary_round_aux_not_nan (s : bool) (m e : Z) (l : location) :
  0 <= m -> F64.is_nan (binary_round_aux F64.prec F64.emax s m e l) = false.
Proof.
  intros Hm. unfold binary_round_aux.
  pose proof (shr_fexp_nonneg m e l Hm) as H1.
  destruct (shr_fexp F64.prec F64.emax m e l) as [mrs' e'].
  simpl in H1.
  pose proof (shr_fexp_nonneg _ e' loc_Exact
                (round_nearest_even_nonneg _ (loc_of_shr_record mrs') H1))
    as H2.
  destruct (shr_fexp F64.prec F64.emax _ e' loc_Exact) as [mrs'' e''].
  simpl in H2.
  destruct (shr_m mrs'') as [ | p | p ]; try reflexivity.
  - destruct (e'' <=? F64.emax - F64.prec); reflexivity.
  - lia.
Qed.

Lemma mul_not_nan a b :
  F64.is_finite a = true -> F64.is_finite b = true ->
  F64.is_nan (mul a b) = false.
Proof.
  destruct a as [sa | | | sa ma ea], b as [sb | | | sb mb eb];
    try discriminate; intros _ _; try reflexivity.
  apply binary_round_aux_not_nan. lia.
Qed.

Lemma div_core_nonneg (m1 m2 : positive) (e1 e2 : Z) :
  0 <= fst (fst (SFdiv_core_binary F64.prec F64.emax
                   (Z.pos m1) e1 (Z.pos m2) e2)).
Proof.
  unfold SFdiv_core_binary.
  set (s := e1 - e2 - _).
  set (m' := match s with
             | Z.pos _ => Z.shiftl (Z.pos m1) s
             | 0 => Z.pos m1
             | Z.neg _ => 0
             end).
  assert (Hm' : 0 <= m').
  { subst m'. destruct s; try lia. apply Z.shiftl_nonneg. lia. }
  pose proof (Z_div_mod m' (Z.pos m2) eq_refl) as Hdm.
  destruct (Z.div_eucl m' (Z.pos m2)) as [q r]. simpl.
  destruct Hdm as [Hq Hr]. nia.
Qed.

Lemma div_not_nan a b :
  F64.is_nan a = false ->
  (exists s m e, b = S754_finite s m e) ->
  F64.is_nan (div a b) = false.
Proof.
  intros Ha (sb & mb & eb & ->).
  destruct a as [sa | sa | | sa ma ea]; try discriminate; try reflexivity.
  simpl. pose proof (div_core_nonneg ma mb ea eb) as Hq.
  destruct (SFdiv_core_binary F64.prec F64.emax (Z.pos ma) ea (Z.pos mb) eb)
    as [[q e'] l]. simpl in Hq.
  apply binary_round_aux_not_nan, Hq.
Qed.

Lemma add_zero_not_nan a (s : bool) :
  F64.is_nan a = false -> F64.is_nan (add a (S754_zero s)) = false.
Proof.
  destruct a as [[ | ] | | | ], s; try discriminate; reflexivity.
Qed.

Lemma zero_discriminant_finite_b b c :
  F64.eqb (sub (sq b) (mul (lit 4) c)) (lit 0) = true ->
  F64.is_finite b = true.
Proof.
  generalize (mul (lit 4) c). intros k Hz.
  destruct b as [sb | [ | ] | | sb mb eb]; try reflexivity; exfalso;
    destruct k as [ | [ | ] | | ]; vm_compute in Hz; discriminate Hz.
Qed.

Lemma tangent_point_not_nan b c :
  F64.eqb (sub (sq b) (mul (lit 4) c)) (lit 0) = true ->
  F64.is_nan
    (div (add (mul (lit (-1)) b) (sqrt (sub (sq b) (mul (lit 4) c))))
         (lit 2)) = false.
Proof.
  intros Hz. pose proof (zero_discriminant_finite_b b c Hz) as Hb.
  destruct (sub (sq b) (mul (lit 4) c)) as [sd | [ | ] | | [ | ] md ed];
    try discriminate.
  apply div_not_nan.
  - apply add_zero_not_nan, mul_not_nan; [ reflexivity | exact Hb ].
  - do 3 eexists. reflexivity.
Qed.
End NotNaN.

Section FloatTangent.
Context `{Coordinates F64.t}.
Implicit Types h : gmap loc pyobj.

(** The tangent line of sight in binary64: when the discriminant the
    source computes is a zero, the distance returned is not NaN. *)
Lemma spherical_tangent_is_a_number (s : SphericalScreen.t) (frame : loc) h
    (c : SkyCoord) (f : Frame) (i : nat) (D : Cartesian F64.t) :
  h !! SphericalScreen.center s = Some (ObjSkyCoord c) ->
  h !! frame = Some (ObjFrame f) ->
  represent_as_unit f !! i = Some D ->
  F64.eqb (discriminant (transform_to_cartesian c f)
             (hgs_radius (transform_to_hgs c (obstime c))) D)
          (lit 0) = true ->
  exists (out : list F64.t) (v : F64.t),
    SphericalScreen.calculate_distance s frame h = (Returns out, h)
    /\ out !! i = Some v
    /\ F64.is_nan v = false.
Proof.
  intros Ec Ef Ei Hz.
  eexists. eexists. split; [ apply (spherical_at _ _ _ _ _ Ec Ef) | ].
  split; [ rewrite list_lookup_fmap, Ei; reflexivity | ].
  apply tangent_point_not_nan, Hz.
Qed.
End FloatTangent.

(** ** The screens in IEEE arithmetic *)

Section FloatScreens.
Context `{Coordinates F64.t}.
Implicit Types h : gmap loc pyobj.


(** C4, as the code has it. Neither constructor looks at the geometry:
    with no keyword but [only_off_disk], construction returns the screen
    for any vantage point or centre.  [calculate_distance] then returns
    one value for each sky position instead of raising, and for a planar
    screen whose vantage point is the centre of the reference body every
    one of these values is NaN. *)
Theorem degenerate_screens_construct_and_measure
    (l frame : loc) (kwargs : gmap string bool) h
    (c : SkyCoord) (f : Frame) :
  dom kwargs ⊆ ({["only_off_disk"%string]} : gset string) ->
  h !! l = Some (ObjSkyCoord c) ->
  h !! frame = Some (ObjFrame f) ->
  (exists p : PlanarScreen.t,
     PlanarScreen.init l kwargs = Returns p
     /\ PlanarScreen.vantage_point p = l
     /\ exists out : list F64.t,
          PlanarScreen.calculate_distance p frame h = (Returns out, h)
          /\ length out = length (represent_as_unit f)
          /\ (transform_to_cartesian c f
              = scale x_axis (observer_radius f) ->
              out = map (fun _ => F64.nan) (represent_as_unit f)))
  /\ (exists s : SphericalScreen.t,
        SphericalScreen.init l kwargs = Returns s
        /\ SphericalScreen.center s = l
        /\ exists out : list F64.t,
             SphericalScreen.calculate_distance s frame h
             = (Returns out, h)
             /\ length out = length (represent_as_unit f)).
Proof.
  intros Hk Ec Ef. split.
  - eexists. split.
    { unfold PlanarScreen.init, BaseScreen.init_kwargs.
      rewrite decide_True by exact Hk. reflexivity. }
    split; [ reflexivity | ].
    eexists. split; [ apply planar_at; [ exact Ec | exact Ef ] | ].
    split; [ apply length_map | ].
    intros Hdeg. apply map_ext. intros D.
    apply (plane_distance_degenerate _ _ D Hdeg).
  - eexists. split.
    { unfold SphericalScreen.init, BaseScreen.init_kwargs.
      rewrite decide_True by exact Hk. reflexivity. }
    split; [ reflexivity | ].
    eexists. split; [ apply spherical_at; [ exact Ec | exact Ef ] | ].
    apply length_map.
Qed.
End FloatScreens.

(** ** Concrete stores *)

Section AlignedWorld.
Context {T : Type} `{Scalar T}.

Lemma world_point (p : Z * Z * Z) (r : Z) (ds : list (Z * Z * Z)) :
  Aligned.world (T := T) p r ds !! 1%positive
  = Some (@ObjSkyCoord T Aligned.coordinates (Aligned.point p)).
Proof. unfold Aligned.world. apply lookup_insert_eq. Qed.

Lemma world_frame (p : Z * Z * Z) (r : Z) (ds : list (Z * Z * Z)) :
  Aligned.world (T := T) p r ds !! 2%positive
  = Some (@ObjFrame T Aligned.coordinates (Aligned.frame_at r ds)).
Proof.
  unfold Aligned.world.
  rewrite lookup_insert_ne by discriminate. apply lookup_insert_eq.
Qed.
End AlignedWorld.

Section TabulatedWorld.
Context {T : Type} `{Scalar T}.

Lemma tabulated_point (c : Tabulated.skycoord T) (r : Z)
    (ds : list (Z * Z * Z)) :
  Tabulated.world c r ds !! 1%positive
  = Some (@ObjSkyCoord T Tabulated.coordinates c).
Proof. unfold Tabulated.world. apply lookup_insert_eq. Qed.

Lemma tabulated_frame (c : Tabulated.skycoord T) (r : Z)
    (ds : list (Z * Z * Z)) :
  Tabulated.world c r ds !! 2%positive
  = Some (@ObjFrame T Tabulated.coordinates (Aligned.frame_at r ds)).
Proof.
  unfold Tabulated.world.
  rewrite lookup_insert_ne by discriminate. apply lookup_insert_eq.
Qed.
End TabulatedWorld.

(** Running a method in such a store, down to the numbers. *)
Ltac run_in_world :=
  etransitivity;
  [ first [ apply spherical_at | apply planar_at | apply radius_at ];
    first [ apply world_point | apply world_frame ]
  | do 2 f_equal; vm_compute; reflexivity ].

(** C10. There is a spherical screen and a sky position with a finite
    negative distance.  In binary64, for every screen and every sky
    position the value returned is [(-1*b + sqrt (b**2 - 4*c)) / 2] as it
    comes, with [b] and [c] of the screen's own quadratic, whatever its
    sign.  With the observer at distance 4 and the sphere centred at
    heliocentric (5, 12, 0), that is [S = (9, 12, 0)] in the frame and
    radius 13, the line of sight [D] straight away from the reference
    body has a positive discriminant; the value returned for it is
    finite and negative, it is a root of the quadratic of [S], the
    radius and [D], and the other root is below it: both intersections
    are behind the observer and the larger root is returned, neither
    clamped nor NaN. *)
Theorem spherical_negative_distance :
  (forall (W : Coordinates F64.t) (s : SphericalScreen.t) (frame : loc)
          (h : gmap loc pyobj) (c : SkyCoord) (f : Frame) (i : nat)
          (D : Cartesian F64.t),
     h !! SphericalScreen.center s = Some (ObjSkyCoord c) ->
     h !! frame = Some (ObjFrame f) ->
     represent_as_unit f !! i = Some D ->
     let S := transform_to_cartesian c f in
     let radius := hgs_radius (transform_to_hgs c (obstime c)) in
     let b := mul (lit (-2)) (dot S D) in
     exists out : list F64.t,
       SphericalScreen.calculate_distance s frame h = (Returns out, h)
       /\ out !! i
          = Some (div (add (mul (lit (-1)) b)
                           (sqrt (discriminant S radius D)))
                      (lit 2)))
  /\ (let c : @SkyCoord F64.t Aligned.coordinates :=
        Aligned.point (5, 12, 0)%Z in
      let f : @Frame F64.t Aligned.coordinates :=
        Aligned.frame_at 4 [(-1, 0, 0)%Z] in
      let h : gmap loc (@pyobj F64.t Aligned.coordinates) :=
        <[1%positive := ObjSkyCoord c]> (<[2%positive := ObjFrame f]> ∅) in
      let S := transform_to_cartesian c f in
      let radius := hgs_radius (transform_to_hgs c (obstime c)) in
      exists (D : Cartesian F64.t) (out : list F64.t) (v t' : F64.t),
        represent_as_unit f !! 0%nat = Some D
        /\ F64.eqb (dot D D) (lit 1) = true
        /\ SphericalScreen.calculate_distance Aligned.spherical 2%positive h
           = (Returns out, h)
        /\ out !! 0%nat = Some v
        /\ F64.is_finite v = true
        /\ F64.ltb v (lit 0) = true
        /\ F64.ltb (lit 0) (discriminant S radius D) = true
        /\ F64.eqb (sphere_quadratic S radius D v) (lit 0) = true
        /\ F64.eqb (sphere_quadratic S radius D t') (lit 0) = true
        /\ F64.ltb t' v = true
        /\ v = lit (-4) /\ t' = lit (-14)).
Proof.
  split.
  - intros W s frame h c f i D Ec Ef Ei S radius b.
    eexists. split; [ apply (spherical_at _ _ _ _ _ Ec Ef) | ].
    rewrite list_lookup_fmap, Ei. reflexivity.
  - intros c f h S radius.
    exists (Aligned.vec (-1, 0, 0)%Z), [lit (-4)], (lit (-4)), (lit (-14)).
    split; [ reflexivity | ]. split; [ vm_compute; reflexivity | ].
    split; [ change h with (Aligned.world (T := F64.t) (5, 12, 0)%Z 4
                              [(-1, 0, 0)%Z]);
             run_in_world | ].
    repeat split; vm_compute; reflexivity.
Qed.

(** C1 as claimed fails in binary64.  Observer at distance 1, sphere
    centred at heliocentric (1, 80000000, 0), line of sight (1, 0, 0):
    [S = (2, 80000000, 0)], [S.D = 2], [|S|^2 = 6400000000000004] and
    [radius^2 = 6400000000000001], so the discriminant is
    [4 * (4 - 3) = 4], positive, and the larger root is [2 + 1 = 3].
    Every input is an integer that binary64 holds exactly.  In binary64
    the two norms are rounded before they are squared:
    [sphere_center.norm()**2] comes out as 6400000000000005 and
    [self.radius**2] as 6400000000000000, so [c] is 5 instead of 3,
    [b**2 - 4*c] is [16 - 20 = -4], and the distance returned is NaN. *)
Lemma spherical_far_root_is_lost_to_rounding :
  let p := (1, 80000000, 0)%Z in
  let ds := [(1, 0, 0)%Z] in
  (let S : Cartesian R :=
     @transform_to_cartesian R Aligned.coordinates
       (Aligned.point p) (Aligned.frame_at 1 ds) in
   let radius : R := norm (Aligned.vec (T := R) p) in
   let D : Cartesian R := Aligned.vec (1, 0, 0)%Z in
   (0 < discriminant S radius D)%R
   /\ (dot S D + R_sqrt.sqrt (dot S D * dot S D - sq (norm S) + sq radius)
       = 3)%R
   /\ SphericalScreen.calculate_distance Aligned.spherical 2%positive
        (Aligned.world (T := R) p 1 ds)
      = (Returns [3%R], Aligned.world p 1 ds))
  /\ (let S : Cartesian F64.t :=
        @transform_to_cartesian F64.t Aligned.coordinates
          (Aligned.point p) (Aligned.frame_at 1 ds) in
      let radius : F64.t := norm (Aligned.vec (T := F64.t) p) in
      let D : Cartesian F64.t := Aligned.vec (1, 0, 0)%Z in
      sq (norm S) = lit 6400000000000005
      /\ sq radius = lit 6400000000000000
      /\ sub (sq (norm S)) (sq radius) = lit 5
      /\ discriminant S radius D = lit (-4))
  /\ SphericalScreen.calculate_distance Aligned.spherical 2%positive
       (Aligned.world (T := F64.t) p 1 ds)
     = (Returns [F64.nan], Aligned.world p 1 ds).
Proof.
  intros p ds.
  split; [ | split; [ repeat split; vm_compute; reflexivity
                    | run_in_world ] ].
  intros S radius D.
  assert (Hr : sq radius = 6400000000000001%R).
  { unfold sq, radius, norm. simpl. rewrite sqrt_sqrt by lra. lra. }
  assert (HS : sq (norm S) = 6400000000000004%R).
  { rewrite sq_norm. simpl. lra. }
  assert (HD : dot S D = 2%R).
  { unfold dot. simpl. lra. }
  assert (Hroot : (dot S D
                   + R_sqrt.sqrt (dot S D * dot S D - sq (norm S) + sq radius)
                   = 3)%R).
  { rewrite HS, Hr, HD.
    replace (2 * 2 - 6400000000000004 + 6400000000000001)%R
      with (1 * 1)%R by lra.
    rewrite sqrt_square by lra. lra. }
  split; [ rewrite discriminant_real, HS, Hr, HD; lra | ].
  split; [ exact Hroot | ].
  etransitivity;
    [ apply spherical_at; [ apply world_point | apply world_frame ] | ].
  do 2 f_equal. simpl. f_equal.
  rewrite !sqrt_sqrt by lra.
  match goal with
  | |- context [R_sqrt.sqrt ?e] => replace e with (2 * 2)%R by lra
  end.
  rewrite sqrt_square by lra. lra.
Qed.

(** C5 as claimed fails in binary64.  Observer at distance 1, sphere
    centred at heliocentric (0, 3, 0), line of sight (1, 0, 0):
    [S = (1, 3, 0)], [S.D = 1], [|S|^2 = 10] and [radius^2 = 9], so the
    discriminant is [4 * (1 - 1) = 0] and the line is tangent to the
    sphere, at distance 1.  In binary64 the norm of [S] is the rounded
    square root of 10, whose square is above 10; [c] is above 1,
    [b**2 - 4*c] is below 0, and the distance returned is NaN. *)
Lemma spherical_tangent_root_is_lost_to_rounding :
  let p := (0, 3, 0)%Z in
  let ds := [(1, 0, 0)%Z] in
  (let S : Cartesian R :=
     @transform_to_cartesian R Aligned.coordinates
       (Aligned.point p) (Aligned.frame_at 1 ds) in
   let radius : R := norm (Aligned.vec (T := R) p) in
   let D : Cartesian R := Aligned.vec (1, 0, 0)%Z in
   discriminant S radius D = 0%R /\ dot S D = 1%R)
  /\ (let S : Cartesian F64.t :=
        @transform_to_cartesian F64.t Aligned.coordinates
          (Aligned.point p) (Aligned.frame_at 1 ds) in
      let radius : F64.t := norm (Aligned.vec (T := F64.t) p) in
      let D : Cartesian F64.t := Aligned.vec (1, 0, 0)%Z in
      F64.ltb (lit 10) (sq (norm S)) = true
      /\ sq radius = lit 9
      /\ F64.ltb (discriminant S radius D) (lit 0) = true)
  /\ SphericalScreen.calculate_distance Aligned.spherical 2%positive
       (Aligned.world (T := F64.t) p 1 ds)
     = (Returns [F64.nan], Aligned.world p 1 ds).
Proof.
  intros p ds.
  split; [ | split; [ repeat split; vm_compute; reflexivity
                    | run_in_world ] ].
  intros S radius D.
  assert (Hr : sq radius = 9%R).
  { unfold sq, radius, norm. simpl. rewrite sqrt_sqrt by lra. lra. }
  assert (HS : sq (norm S) = 10%R).
  { rewrite sq_norm. simpl. lra. }
  assert (HD : dot S D = 1%R).
  { unfold dot. simpl. lra. }
  split; [ | exact HD ].
  rewrite discriminant_real, HS, Hr, HD. lra.
Qed.


(** C4 as claimed fails.  Observer at distance 4 and three lines of
    sight, (-1, 0, 0), (1, 0, 0) and (0, 1, 0); the point is the centre of
    the reference body, at (4, 0, 0) in the frame.  Both constructors
    return.  For the planar screen [direction] is
    (1, 0, 0) * 4 - (4, 0, 0) = (0, 0, 0), its norm is 0, the division
    0 / 0 makes every component NaN, and every distance is NaN.  For the
    spherical screen the radius is 0, [c] is 16 and [b] is 8, -8 and -0:
    the distances are (-8 + sqrt 0) / 2 = -4, (8 + sqrt 0) / 2 = 4 and
    (0 + sqrt (-64)) / 2 = NaN.  Nothing is raised. *)
Lemma degenerate_screens_do_not_raise :
  let h : gmap loc (@pyobj F64.t Aligned.coordinates) :=
    Aligned.world (0, 0, 0)%Z 4 [(-1, 0, 0)%Z; (1, 0, 0)%Z; (0, 1, 0)%Z] in
  PlanarScreen.init 1%positive ∅ = Returns Aligned.planar
  /\ PlanarScreen.calculate_distance Aligned.planar 2%positive h
     = (Returns [F64.nan; F64.nan; F64.nan], h)
  /\ SphericalScreen.init 1%positive ∅ = Returns Aligned.spherical
  /\ SphericalScreen.radius Aligned.spherical h = (Returns (lit 0), h)
  /\ SphericalScreen.calculate_distance Aligned.spherical 2%positive h
     = (Returns [lit (-4); lit 4; F64.nan], h).
Proof.
  intros h.
  split; [ reflexivity | ]. split; [ run_in_world | ].
  split; [ reflexivity | ]. split; run_in_world.
Qed.

(** ** A frame that keeps its representation *)

Section CachingWorld.
Context {T : Type} `{Scalar T}.
Implicit Types h : gmap loc (Calling.cached T).

(** The first call: the frame has no representation yet, and has one
    afterwards. *)
Lemma caching_spherical_first h (s : SphericalScreen.t) (frame : loc)
    (r o : T) (S : Cartesian T) (sky : list (Cartesian T)) :
  h !! SphericalScreen.center s = Some (Calling.CPoint r S) ->
  h !! frame = Some (Calling.CFrame o sky None) ->
  Calling.SphericalScreen_calculate_distance Calling.caching s frame h
  = (Returns
       (map (fun D =>
               div (add (mul (lit (-1)) (mul (lit (-2)) (dot S D)))
                        (sqrt (discriminant S r D)))
                   (lit 2))
            sky),
     <[frame := Calling.CFrame o sky (Some sky)]> h).
Proof.
  intros Ec Ef.
  unfold Calling.SphericalScreen_calculate_distance, bind. simpl.
  repeat first [ rewrite Ec | rewrite Ef | progress cbn beta iota ].
  unfold ret. rewrite map_map. reflexivity.
Qed.

(** The next calls: the frame hands out what it kept. *)
Lemma caching_spherical_again h (s : SphericalScreen.t) (frame : loc)
    (r o : T) (S : Cartesian T) (sky rep : list (Cartesian T)) :
  h !! SphericalScreen.center s = Some (Calling.CPoint r S) ->
  h !! frame = Some (Calling.CFrame o sky (Some rep)) ->
  Calling.SphericalScreen_calculate_distance Calling.caching s frame h
  = (Returns
       (map (fun D =>
               div (add (mul (lit (-1)) (mul (lit (-2)) (dot S D)))
                        (sqrt (discriminant S r D)))
                   (lit 2))
            rep),
     h).
Proof.
  intros Ec Ef.
  unfold Calling.SphericalScreen_calculate_distance, bind. simpl.
  repeat first [ rewrite Ec | rewrite Ef | progress cbn beta iota ].
  unfold ret. rewrite map_map. reflexivity.
Qed.
End CachingWorld.


(** The docstring's case in binary64: a sphere centred on the observer,
    here at distance 4, puts every sky position at that distance. *)
Example spherical_at_observer_binary64 :
  let h : gmap loc (@pyobj F64.t Aligned.coordinates) :=
    Aligned.world (-4, 0, 0)%Z 4 [(1, 0, 0)%Z; (0, 1, 0)%Z; (0, 0, -1)%Z] in
  SphericalScreen.calculate_distance Aligned.spherical 2%positive h
  = (Returns [lit 4; lit 4; lit 4], h).
Proof. intros h. run_in_world. Qed.

(** ** The theorems at concrete stores *)


(** The store of the negative distance again: the value returned is the
    expression of the source, and it is -4. *)
Lemma spherical_negative_distance_witness :
  let h : gmap loc (@pyobj F64.t Aligned.coordinates) :=
    Aligned.world (5, 12, 0)%Z 4 [(-1, 0, 0)%Z] in
  let S : Cartesian F64.t := Aligned.vec (9, 12, 0)%Z in
  let D : Cartesian F64.t := Aligned.vec (-1, 0, 0)%Z in
  exists out : list F64.t,
    SphericalScreen.calculate_distance Aligned.spherical 2%positive h
    = (Returns out, h)
    /\ out !! 0%nat
       = Some (div (add (mul (lit (-1)) (mul (lit (-2)) (dot S D)))
                        (sqrt (discriminant S (lit 13) D)))
                   (lit 2))
    /\ div (add (mul (lit (-1)) (mul (lit (-2)) (dot S D)))
                (sqrt (discriminant S (lit 13) D)))
           (lit 2)
       = lit (-4).
Proof.
  intros h S D.
  destruct spherical_negative_distance as [Hall _].
  destruct (Hall Aligned.coordinates Aligned.spherical 2%positive h
              (Aligned.point (5, 12, 0)%Z) (Aligned.frame_at 4 [(-1, 0, 0)%Z])
              0%nat D (world_point _ _ _) (world_frame _ _ _) eq_refl)
    as (out & Hrun & Hi).
  exists out. split; [ exact Hrun | ]. split.
  - exact Hi.
  - vm_compute. reflexivity.
Defined.

(** The sphere of centre (1, 0, 0) and radius 1 seen from distance 1 along
    the x axis: the line enters it at 1 and leaves it at 3. *)
Lemma spherical_far_root_witness :
  let h : gmap loc (@pyobj R Aligned.coordinates) :=
    Aligned.world (1, 0, 0)%Z 1 [(1, 0, 0)%Z] in
  let S : Cartesian R := mkCartesian (1 + 1)%R 0%R 0%R in
  let radius : R := norm (Aligned.vec (T := R) (1, 0, 0)%Z) in
  let D : Cartesian R := Aligned.vec (1, 0, 0)%Z in
  (0 < discriminant S radius D)%R
  /\ exists out : list R,
       SphericalScreen.calculate_distance Aligned.spherical 2%positive h
       = (Returns out, h)
       /\ out !! 0%nat = Some 3%R.
Proof.
  intros h S radius D.
  assert (Hr : sq radius = 1%R).
  { unfold sq, radius, norm. simpl. rewrite sqrt_sqrt by lra. lra. }
  assert (Hd : (0 < discriminant S radius D)%R).
  { rewrite discriminant_real, sq_norm, Hr. unfold dot. simpl. lra. }
  split; [ exact Hd | ].
  destruct (spherical_far_root Aligned.spherical 2%positive h
              (Aligned.point (1, 0, 0)%Z) (Aligned.frame_at 1 [(1, 0, 0)%Z])
              0%nat D (world_point _ _ _) (world_frame _ _ _) eq_refl Hd)
    as (out & t & Hrun & Hi & Ht & _).
  exists out. split; [ exact Hrun | ].
  rewrite Hi, Ht. f_equal.
  change (sq (hgs_radius _)) with (sq radius).
  rewrite sq_norm, Hr. unfold dot. simpl.
  match goal with
  | |- context [R_sqrt.sqrt ?e] => replace e with 1%R by lra
  end.
  rewrite sqrt_1. lra.
Defined.

(** The sphere of centre (0, 3, 0) and radius 3 touches the line from the
    observer, at distance 4, through the centre of the reference body. *)
Lemma spherical_tangent_root_witness :
  let h : gmap loc (@pyobj R Aligned.coordinates) :=
    Aligned.world (0, 3, 0)%Z 4 [(1, 0, 0)%Z] in
  let S : Cartesian R := mkCartesian (0 + 4)%R 3%R 0%R in
  let radius : R := norm (Aligned.vec (T := R) (0, 3, 0)%Z) in
  let D : Cartesian R := Aligned.vec (1, 0, 0)%Z in
  discriminant S radius D = 0%R
  /\ exists out : list R,
       SphericalScreen.calculate_distance Aligned.spherical 2%positive h
       = (Returns out, h)
       /\ out !! 0%nat = Some (dot S D)
       /\ dot S D = 4%R.
Proof.
  intros h S radius D.
  assert (Hr : sq radius = 9%R).
  { unfold sq, radius, norm. simpl.
    rewrite sqrt_sqrt by lra. lra. }
  assert (Hd : discriminant S radius D = 0%R).
  { rewrite discriminant_real, sq_norm, Hr. unfold dot. simpl. lra. }
  split; [ exact Hd | ].
  destruct (spherical_tangent_root Aligned.spherical 2%positive h
              (Aligned.point (0, 3, 0)%Z) (Aligned.frame_at 4 [(1, 0, 0)%Z])
              0%nat D (world_point _ _ _) (world_frame _ _ _) eq_refl Hd)
    as (out & Hrun & Hi & _).
  exists out. split; [ exact Hrun | ]. split; [ exact Hi | ].
  unfold dot. simpl. lra.
Defined.





(** Both screens built on the centre of the reference body, seen from
    distance 4. *)
Lemma degenerate_screens_construct_and_measure_witness :
  let h : gmap loc (@pyobj F64.t Aligned.coordinates) :=
    Aligned.world (0, 0, 0)%Z 4 [(1, 0, 0)%Z; (0, 1, 0)%Z] in
  let f : Aligned.frame F64.t :=
    Aligned.frame_at 4 [(1, 0, 0)%Z; (0, 1, 0)%Z] in
  dom (∅ : gmap string bool) ⊆ ({["only_off_disk"%string]} : gset string)
  /\ @transform_to_cartesian F64.t Aligned.coordinates
       (Aligned.point (0, 0, 0)%Z) f
     = scale x_axis (Aligned.distance f)
  /\ PlanarScreen.init 1%positive ∅ = Returns Aligned.planar
  /\ PlanarScreen.calculate_distance Aligned.planar 2%positive h
     = (Returns [F64.nan; F64.nan], h)
  /\ SphericalScreen.init 1%positive ∅ = Returns Aligned.spherical
  /\ exists out : list F64.t,
       SphericalScreen.calculate_distance Aligned.spherical 2%positive h
       = (Returns out, h)
       /\ length out = 2%nat.
Proof.
  intros h f.
  assert (Hk : dom (∅ : gmap string bool)
               ⊆ ({["only_off_disk"%string]} : gset string)).
  { rewrite dom_empty_L. apply empty_subseteq. }
  assert (Hc : @transform_to_cartesian F64.t Aligned.coordinates
                 (Aligned.point (0, 0, 0)%Z) f
               = scale x_axis (Aligned.distance f)).
  { vm_compute. reflexivity. }
  split; [ exact Hk | ]. split; [ exact Hc | ].
  destruct (degenerate_screens_construct_and_measure
              1%positive 2%positive ∅ h (Aligned.point (0, 0, 0)%Z) f
              Hk (world_point _ _ _) (world_frame _ _ _))
    as [(p & Hp & Hv & out1 & Hrun1 & _ & Hnan)
        (s & Hs & Hctr & out2 & Hrun2 & Hlen)].
  assert (Ep : p = Aligned.planar).
  { assert (E : Returns p = Returns Aligned.planar)
      by (rewrite <- Hp; reflexivity).
    injection E as E. exact E. }
  assert (Es : s = Aligned.spherical).
  { assert (E : Returns s = Returns Aligned.spherical)
      by (rewrite <- Hs; reflexivity).
    injection E as E. exact E. }
  subst p s.
  split; [ reflexivity | ].
  split; [ rewrite Hrun1, (Hnan Hc); reflexivity | ].
  split; [ reflexivity | ].
  exists out2. split; [ exact Hrun2 | exact Hlen ].
Defined.

(** A centre that moves from (5, 12, 0) to (3, 4, 0): the radius goes
    from 13 to 5. *)
Lemma radius_rederived_on_access_witness :
  let h : gmap loc (@pyobj F64.t Aligned.coordinates) :=
    Aligned.world (5, 12, 0)%Z 4 [] in
  let h' : gmap loc (@pyobj F64.t Aligned.coordinates) :=
    <[1%positive := @ObjSkyCoord F64.t Aligned.coordinates
                      (Aligned.point (3, 4, 0)%Z)]> h in
  h !! SphericalScreen.center Aligned.spherical
  = Some (@ObjSkyCoord F64.t Aligned.coordinates
            (Aligned.point (5, 12, 0)%Z))
  /\ SphericalScreen.radius Aligned.spherical h = (Returns (lit 13), h)
  /\ SphericalScreen.radius Aligned.spherical h' = (Returns (lit 5), h').
Proof.
  intros h h'.
  split; [ apply world_point | ].
  destruct (radius_rederived_on_access Aligned.spherical h
              (Aligned.point (5, 12, 0)%Z) (world_point _ _ _))
    as [Hnow Hthen].
  split.
  - etransitivity; [ exact Hnow | reflexivity ].
  - etransitivity;
      [ exact (Hthen (Aligned.point (3, 4, 0)%Z)) | reflexivity ].
Defined.

(** * Further properties of the screens *)

Section RealGeometry.
Context `{Coordinates R}.
Implicit Types h : gmap loc pyobj.
Local Open Scope R_scope.

(** The squared length of [P - S], by components. *)
Lemma dot_vsub_scale (D S : Cartesian R) (t : R) :
  dot (vsub (scale D t) S) (vsub (scale D t) S)
  = t * t * dot D D - 2 * dot S D * t
    + (x S * x S + y S * y S + z S * z S).
Proof. unfold dot, vsub, scale. simpl. ring. Qed.

(** X1. The point at the returned distance along a unit line of sight lies on
    the sphere: it is at distance [radius] from the centre of the sphere
    (stated on the squares). *)
Theorem spherical_point_is_on_sphere (s : SphericalScreen.t) (frame : loc) h
    (c : SkyCoord) (f : Frame) (i : nat) (D : Cartesian R) :
  h !! SphericalScreen.center s = Some (ObjSkyCoord c) ->
  h !! frame = Some (ObjFrame f) ->
  represent_as_unit f !! i = Some D ->
  dot D D = 1 ->
  let S := transform_to_cartesian c f in
  let radius := hgs_radius (transform_to_hgs c (obstime c)) in
  0 <= discriminant S radius D ->
  exists (out : list R) (t : R),
    SphericalScreen.calculate_distance s frame h = (Returns out, h)
    /\ out !! i = Some t
    /\ dot (vsub (scale D t) S) (vsub (scale D t) S) = sq radius.
Proof.
  intros Ec Ef Ei HD S radius Hd.
  rewrite discriminant_real in Hd.
  set (p := dot S D) in *. set (q := sq (norm S) - sq radius) in *.
  assert (Hd0 : 0 <= p * p - q) by lra.
  eexists. exists (p + R_sqrt.sqrt (p * p - q)).
  split; [ apply (spherical_at _ _ _ _ _ Ec Ef) | ].
  split.
  { rewrite list_lookup_fmap, Ei. simpl. f_equal.
    fold S radius. unfold discriminant. fold p q.
    apply (far_solution p q Hd0). }
  pose proof (far_solution_is_root p q Hd0) as Hroot. cbv zeta in Hroot.
  rewrite dot_vsub_scale, HD. fold p.
  rewrite <- sq_norm. subst q. lra.
Qed.

(** X2. An observer inside the sphere sees it in every direction: whatever
    the line of sight, the discriminant is positive, the distance returned
    is positive and the other root is negative. *)
Theorem spherical_from_inside_is_ahead (s : SphericalScreen.t) (frame : loc)
    h (c : SkyCoord) (f : Frame) (i : nat) (D : Cartesian R) :
  h !! SphericalScreen.center s = Some (ObjSkyCoord c) ->
  h !! frame = Some (ObjFrame f) ->
  represent_as_unit f !! i = Some D ->
  let S := transform_to_cartesian c f in
  let radius := hgs_radius (transform_to_hgs c (obstime c)) in
  sq (norm S) < sq radius ->
  0 < discriminant S radius D
  /\ exists (out : list R) (t : R),
       SphericalScreen.calculate_distance s frame h = (Returns out, h)
       /\ out !! i = Some t
       /\ 0 < t
       /\ exists t', t' < 0 /\ sphere_quadratic S radius D t' = 0.
Proof.
  intros Ec Ef Ei S radius Hin.
  rewrite discriminant_real.
  set (p := dot S D) in *. set (q := sq (norm S) - sq radius) in *.
  assert (Hq : q < 0) by (subst q; lra).
  assert (Hd0 : 0 <= p * p - q) by nra.
  pose proof (sqrt_sqrt (p * p - q) Hd0) as Hs.
  pose proof (sqrt_pos (p * p - q)) as Hs0.
  split; [ nra | ].
  eexists. exists (p + R_sqrt.sqrt (p * p - q)).
  split; [ apply (spherical_at _ _ _ _ _ Ec Ef) | ].
  split.
  { rewrite list_lookup_fmap, Ei. simpl. f_equal.
    fold S radius. unfold discriminant. fold p q.
    apply (far_solution p q Hd0). }
  split; [ nra | ].
  exists (p - R_sqrt.sqrt (p * p - q)). split; [ nra | ].
  rewrite sphere_quadratic_real. fold p q.
  apply (near_solution_is_root p q Hd0).
Qed.
End RealGeometry.

Section RealPlane.
Context `{Coordinates R}.
Implicit Types h : gmap loc pyobj.
Local Open Scope R_scope.

Lemma sum_of_squares_nonneg (v : Cartesian R) :
  0 <= x v * x v + y v * y v + z v * z v.
Proof.
  pose proof (Rle_0_sqr (x v)). pose proof (Rle_0_sqr (y v)).
  pose proof (Rle_0_sqr (z v)). unfold Rsqr in *. lra.
Qed.

(** The value of the planar screen at one index. *)
Lemma planar_lookup (p : PlanarScreen.t) (frame : loc) h
    (vp : SkyCoord) (f : Frame) (i : nat) (D : Cartesian R) :
  h !! PlanarScreen.vantage_point p = Some (ObjSkyCoord vp) ->
  h !! frame = Some (ObjFrame f) ->
  represent_as_unit f !! i = Some D ->
  exists out : list R,
    PlanarScreen.calculate_distance p frame h = (Returns out, h)
    /\ out !! i
       = Some (plane_distance (observer_radius f)
                 (transform_to_cartesian vp f) D).
Proof.
  intros Ev Ef Ei. eexists. split; [ apply (planar_at _ _ _ _ _ Ev Ef) | ].
  rewrite list_lookup_fmap, Ei. reflexivity.
Qed.

(** A vector of positive length has a unit vector along it. *)
Lemma normalize_is_unit (v : Cartesian R) :
  norm v <> 0 -> dot (normalize v) (normalize v) = 1.
Proof.
  intros Hn. unfold normalize, vdiv, dot. simpl.
  pose proof (sqrt_sqrt _ (sum_of_squares_nonneg v)) as Hs.
  unfold norm in *. simpl in *.
  set (N := R_sqrt.sqrt (x v * x v + y v * y v + z v * z v)) in *.
  replace (x v / N * (x v / N) + y v / N * (y v / N) + z v / N * (z v / N))
    with ((x v * x v + y v * y v + z v * z v) / (N * N)) by (field; exact Hn).
  rewrite Hs. field. rewrite <- Hs. nra.
Qed.

(** In exact arithmetic a normal that meets some line of sight is a
    normal of positive length. *)
Lemma normal_is_defined (v D : Cartesian R) :
  dot D (normalize v) <> 0 -> norm v <> 0.
Proof.
  intros Hn E. apply Hn. unfold normalize, vdiv, dot, norm in *.
  simpl in *. rewrite E. unfold Rdiv. rewrite Rinv_0. ring.
Qed.

(** X3. The point at the returned distance lies on the plane that goes
    through the centre of the reference body, at [observerRadius * xAxis],
    with a unit normal: its offset from that centre is orthogonal to the
    normal. *)
Theorem planar_point_is_on_plane (p : PlanarScreen.t) (frame : loc) h
    (vp : SkyCoord) (f : Frame) (i : nat) (D : Cartesian R) :
  h !! PlanarScreen.vantage_point p = Some (ObjSkyCoord vp) ->
  h !! frame = Some (ObjFrame f) ->
  represent_as_unit f !! i = Some D ->
  let centre := scale x_axis (observer_radius f) in
  let n := plane_normal (observer_radius f) (transform_to_cartesian vp f) in
  dot D n <> 0 ->
  exists (out : list R) (t : R),
    PlanarScreen.calculate_distance p frame h = (Returns out, h)
    /\ out !! i = Some t
    /\ dot (vsub (scale D t) centre) n = 0
    /\ dot n n = 1.
Proof.
  intros Ev Ef Ei centre n Hn.
  destruct (planar_lookup p frame h vp f i D Ev Ef Ei) as (out & Hrun & Hi).
  exists out. eexists. split; [ exact Hrun | ]. split; [ exact Hi | ].
  split.
  - unfold plane_distance. fold n. cbv zeta. clearbody n.
    unfold dot in *. unfold vsub, scale, centre, x_axis. simpl in *.
    field. exact Hn.
  - apply normalize_is_unit. apply (normal_is_defined _ D). exact Hn.
Qed.

(** X4. With the observer as the vantage point the plane is the plane of the
    sky through the reference body: a line of sight with x component
    [D.x] meets it at [observerRadius / D.x]. *)
Theorem planar_at_observer (p : PlanarScreen.t) (frame : loc) h
    (vp : SkyCoord) (f : Frame) (i : nat) (D : Cartesian R) :
  h !! PlanarScreen.vantage_point p = Some (ObjSkyCoord vp) ->
  h !! frame = Some (ObjFrame f) ->
  represent_as_unit f !! i = Some D ->
  transform_to_cartesian vp f = mkCartesian 0 0 0 ->
  0 < observer_radius f ->
  x D <> 0 ->
  exists out : list R,
    PlanarScreen.calculate_distance p frame h = (Returns out, h)
    /\ out !! i = Some (observer_radius f / x D).
Proof.
  intros Ev Ef Ei EV Hr HD.
  destruct (planar_lookup p frame h vp f i D Ev Ef Ei) as (out & Hrun & Hi).
  exists out. split; [ exact Hrun | ]. rewrite Hi. f_equal.
  rewrite EV. set (r := observer_radius f) in *.
  unfold plane_distance, plane_normal, normalize, vdiv, norm, dot, vsub,
    scale, x_axis. simpl.
  match goal with
  | |- context [R_sqrt.sqrt ?e] => replace e with (r * r) by ring
  end.
  rewrite sqrt_square by lra. field. split; lra.
Qed.
End RealPlane.

Section RealOrientation.
Context `{Coordinates R}.
Implicit Types h : gmap loc pyobj.
Local Open Scope R_scope.

Lemma norm_scale (v : Cartesian R) (k : R) :
  norm (scale v k) = Rabs k * norm v.
Proof.
  unfold norm, scale. simpl.
  replace (x v * k * (x v * k) + y v * k * (y v * k) + z v * k * (z v * k))
    with (Rsqr k * (x v * x v + y v * y v + z v * z v))
    by (unfold Rsqr; ring).
  rewrite sqrt_mult_alt by apply Rle_0_sqr.
  rewrite sqrt_Rsqr_abs. reflexivity.
Qed.

(** Stretching or reversing a vector at most reverses its unit vector. *)
Lemma normalize_scale (v : Cartesian R) (k : R) :
  k <> 0 -> norm v <> 0 ->
  exists sigma : R,
    sigma <> 0 /\ normalize (scale v k) = scale (normalize v) sigma.
Proof.
  intros Hk Hn. exists (k / Rabs k).
  assert (Ha : Rabs k <> 0) by (apply Rabs_no_R0; exact Hk).
  split.
  - unfold Rdiv. apply Rmult_integral_contrapositive_currified;
      [ exact Hk | apply Rinv_neq_0_compat; exact Ha ].
  - unfold normalize. rewrite norm_scale.
    unfold vdiv, scale. simpl. f_equal; field; split; assumption.
Qed.

(** X5. Only the orientation of the plane matters: a vantage point moved
    along the line through the centre of the reference body, to either
    side of it, gives the same distance. *)
Theorem planar_depends_on_orientation_only (p1 p2 : PlanarScreen.t)
    (frame : loc) h (vp1 vp2 : SkyCoord) (f : Frame) (k : R)
    (i : nat) (D : Cartesian R) :
  h !! PlanarScreen.vantage_point p1 = Some (ObjSkyCoord vp1) ->
  h !! PlanarScreen.vantage_point p2 = Some (ObjSkyCoord vp2) ->
  h !! frame = Some (ObjFrame f) ->
  represent_as_unit f !! i = Some D ->
  let centre := scale x_axis (observer_radius f) in
  let v1 := vsub centre (transform_to_cartesian vp1 f) in
  let v2 := vsub centre (transform_to_cartesian vp2 f) in
  v2 = scale v1 k ->
  k <> 0 ->
  dot D (normalize v1) <> 0 ->
  exists out1 out2 : list R,
    PlanarScreen.calculate_distance p1 frame h = (Returns out1, h)
    /\ PlanarScreen.calculate_distance p2 frame h = (Returns out2, h)
    /\ out1 !! i = out2 !! i.
Proof.
  intros E1 E2 Ef Ei centre v1 v2 Hv Hk Hn.
  destruct (planar_lookup p1 frame h vp1 f i D E1 Ef Ei)
    as (out1 & Hrun1 & Hi1).
  destruct (planar_lookup p2 frame h vp2 f i D E2 Ef Ei)
    as (out2 & Hrun2 & Hi2).
  exists out1, out2. split; [ exact Hrun1 | ]. split; [ exact Hrun2 | ].
  rewrite Hi1, Hi2. f_equal.
  unfold plane_distance, plane_normal. fold centre v1 v2. cbv zeta.
  destruct (normalize_scale v1 k Hk (normal_is_defined v1 D Hn))
    as (sigma & Hs & En).
  rewrite Hv, En. set (n := normalize v1) in *. clearbody n.
  clear - Hn Hs. unfold dot, scale in *. simpl in *.
  field. split; [ | exact Hn ].
  replace (x D * (x n * sigma) + y D * (y n * sigma) + z D * (z n * sigma))
    with (sigma * (x D * x n + y D * y n + z D * z n)) by ring.
  apply Rmult_integral_contrapositive_currified; assumption.
Qed.
End RealOrientation.

(** * Properties of the helpers of io.py *)

(** ** The matcher finds what the pattern matches *)

Section Regex.
Implicit Types (r : Re.t) (w s : string) (c : ascii) (start : bool).

Lemma append_nil_l s : String.append EmptyString s = s.
Proof. reflexivity. Qed.

Lemma append_cons c w s :
  String.append (String c w) s = String c (String.append w s).
Proof. reflexivity. Qed.

Lemma append_is_empty w1 w2 :
  String.append w1 w2 = EmptyString -> w1 = EmptyString /\ w2 = EmptyString.
Proof.
  destruct w1;
    [ rewrite append_nil_l; auto | rewrite append_cons; discriminate ].
Qed.

Lemma append_assoc w1 w2 w3 :
  String.append (String.append w1 w2) w3
  = String.append w1 (String.append w2 w3).
Proof.
  induction w1 as [ | c w1 IH]; [ reflexivity | ].
  rewrite !append_cons, IH. reflexivity.
Qed.

Lemma nullable_matches start r :
  Re.nullable start r = true -> Re.matches start r EmptyString.
Proof.
  induction r as [ | | | items | r1 IH1 r2 IH2 | r1 IH1 r2 IH2 | r1 IH1];
    simpl; intros Hn; try discriminate.
  - constructor.
  - subst start. constructor.
  - apply andb_prop in Hn as [H1 H2].
    apply (Re.matches_cat start r1 r2 EmptyString EmptyString).
    + apply IH1, H1.
    + simpl. rewrite andb_true_r. apply IH2, H2.
  - apply orb_prop in Hn as [H1 | H2].
    + apply Re.matches_alt_l, IH1, H1.
    + apply Re.matches_alt_r, IH2, H2.
  - constructor.
Qed.

Lemma matches_nullable start r w :
  Re.matches start r w -> w = EmptyString -> Re.nullable start r = true.
Proof.
  induction 1 as [ | | start c items Hin | start r1 r2 w1 w2 H1 IH1 H2 IH2
                 | start r1 r2 w H1 IH1 | start r1 r2 w H2 IH2
                 | | start r c w1 w2 H1 IH1 H2 IH2 ];
    intros E; simpl; try reflexivity; try discriminate.
  - apply append_is_empty in E as [-> ->].
    simpl in IH2. rewrite andb_true_r in IH2.
    rewrite IH1, IH2; reflexivity.
  - rewrite IH1; [ reflexivity | exact E ].
  - rewrite IH2; [ apply orb_true_r | exact E ].
Qed.

Lemma deriv_matches c r : forall start w,
  Re.matches false (Re.deriv start c r) w ->
  Re.matches start r (String c w).
Proof.
  induction r as [ | | | items | r1 IH1 r2 IH2 | r1 IH1 r2 IH2 | r1 IH1];
    intros start w Hm; simpl in Hm.
  - inversion Hm.
  - inversion Hm.
  - inversion Hm.
  - destruct (Re.in_set c items) eqn:Hin; inversion Hm; subst.
    constructor. exact Hin.
  - inversion Hm as [ | | | | ? ? ? ? Hl | ? ? ? ? Hr | | ]; subst.
    + inversion Hl as [ | | | ? ? ? w1 w2 Hd H2 | | | | ]; subst.
      apply (Re.matches_cat start r1 r2 (String c w1) w2).
      * apply IH1, Hd.
      * simpl. rewrite andb_false_r. simpl in H2. exact H2.
    + destruct (Re.nullable start r1) eqn:Hn; [ | inversion Hr ].
      apply (Re.matches_cat start r1 r2 EmptyString (String c w)).
      * apply nullable_matches, Hn.
      * simpl. rewrite andb_true_r. apply IH2, Hr.
  - inversion Hm as [ | | | | ? ? ? ? Hl | ? ? ? ? Hr | | ]; subst.
    + apply Re.matches_alt_l, IH1, Hl.
    + apply Re.matches_alt_r, IH2, Hr.
  - inversion Hm as [ | | | ? ? ? w1 w2 Hd H2 | | | | ]; subst.
    apply (Re.matches_star_cons start r1 c w1 w2).
    + apply IH1, Hd.
    + simpl in H2. exact H2.
Qed.

Lemma matches_deriv start r s :
  Re.matches start r s -> forall c w, s = String c w ->
  Re.matches false (Re.deriv start c r) w.
Proof.
  induction 1 as [ | | start c0 items Hin | start r1 r2 w1 w2 H1 IH1 H2 IH2
                 | start r1 r2 w0 H1 IH1 | start r1 r2 w0 H2 IH2
                 | | start r c0 w1 w2 H1 IH1 H2 IH2 ];
    intros c w E; simpl; try discriminate.
  - injection E as -> <-. rewrite Hin. constructor.
  - destruct w1 as [ | c1 w1'].
    + rewrite append_nil_l in E. subst w2. apply Re.matches_alt_r.
      rewrite (matches_nullable _ _ _ H1 eq_refl).
      simpl in IH2. rewrite andb_true_r in IH2. apply (IH2 c w eq_refl).
    + rewrite append_cons in E. injection E as -> <-. apply Re.matches_alt_l.
      apply (Re.matches_cat false _ r2 w1' w2).
      * apply (IH1 c w1' eq_refl).
      * simpl in H2. rewrite andb_false_r in H2. exact H2.
  - apply Re.matches_alt_l, (IH1 c w E).
  - apply Re.matches_alt_r, (IH2 c w E).
  - rewrite append_cons in E. injection E as -> <-.
    apply (Re.matches_cat false _ (Re.Star r) w1 w2).
    + apply (IH1 c w1 eq_refl).
    + exact H2.
Qed.

(** [search_prefix] answers whether some prefix of the string is matched
    by the pattern. *)
Lemma search_prefix_spec s : forall start r,
  Re.search_prefix start r s = true
  <-> exists w rest, s = String.append w rest /\ Re.matches start r w.
Proof.
  induction s as [ | c s IH]; intros start r; simpl.
  - rewrite orb_false_r. split.
    + intros Hn. exists EmptyString, EmptyString.
      split; [ reflexivity | apply nullable_matches, Hn ].
    + intros (w & rest & E & Hm). symmetry in E.
      apply append_is_empty in E as [-> _].
      apply (matches_nullable _ _ _ Hm eq_refl).
  - split.
    + intros Hs. apply orb_prop in Hs as [Hn | Hd].
      * exists EmptyString, (String c s).
        split; [ reflexivity | apply nullable_matches, Hn ].
      * apply IH in Hd as (w & rest & -> & Hm).
        exists (String c w), rest. split; [ reflexivity | ].
        apply deriv_matches, Hm.
    + intros (w & rest & E & Hm). destruct w as [ | c' w'].
      * rewrite (matches_nullable _ _ _ Hm eq_refl). reflexivity.
      * rewrite append_cons in E. injection E as <- ->.
        apply orb_true_intro. right. apply IH.
        exists w', rest. split; [ reflexivity | ].
        apply (matches_deriv _ _ _ Hm c w' eq_refl).
Qed.
End Regex.

(** ** What is_uri accepts *)

Section IsUri.
Context `{io.pathlib}.
Implicit Types (w s : string) (c : ascii).

Lemma matches_set_inv start items w :
  Re.matches start (Re.Set_ items) w ->
  exists c, w = String c EmptyString /\ Re.in_set c items = true.
Proof. inversion 1; subst. eauto. Qed.

Lemma matches_cat_inv start r1 r2 w :
  Re.matches start (Re.Cat r1 r2) w ->
  exists w1 w2, w = String.append w1 w2 /\ Re.matches start r1 w1
                /\ Re.matches (start && String.eqb w1 EmptyString) r2 w2.
Proof. inversion 1; subst. eauto. Qed.

Lemma matches_star_set start items w :
  Re.matches start (Re.Star (Re.Set_ items)) w
  <-> io.all_chars (fun c => Re.in_set c items) w = true.
Proof.
  split.
  - intros Hm. remember (Re.Star (Re.Set_ items)) as r eqn:Er.
    induction Hm as [ | | | | | | | start r c w1 w2 H1 IH1 H2 IH2 ];
      try discriminate; [ reflexivity | ].
    injection Er as ->.
    apply matches_set_inv in H1 as (c' & E & Hin).
    injection E as <- ->. rewrite append_cons, append_nil_l. simpl.
    rewrite Hin. apply IH2. reflexivity.
  - revert start. induction w as [ | c w IH]; intros start Ha; simpl in Ha.
    + constructor.
    + apply andb_prop in Ha as [Hc Hw].
      apply (Re.matches_star_cons start _ c EmptyString w).
      * constructor. exact Hc.
      * apply IH, Hw.
Qed.

Lemma leb_both (a c : ascii) :
  Ascii.leb a c && Ascii.leb c a = Ascii.eqb c a.
Proof.
  destruct (Ascii.eqb_spec c a) as [-> | Hne].
  - unfold Ascii.leb, Ascii.compare. rewrite N.compare_refl. reflexivity.
  - destruct (Ascii.leb a c) eqn:H1; [ | reflexivity ].
    destruct (Ascii.leb c a) eqn:H2; [ | reflexivity ].
    exfalso. apply Hne. apply Ascii.leb_antisym; assumption.
Qed.

Lemma in_letters c :
  Re.in_set c [("A", "Z"); ("a", "z")]%char = io.is_letter c.
Proof.
  unfold Re.in_set, io.is_letter. simpl. rewrite orb_false_r. reflexivity.
Qed.

Lemma in_scheme_chars c :
  Re.in_set c [("A", "Z"); ("a", "z"); ("0", "9"); ("+", "+"); ("-", "-");
               ("+", "+"); (".", ".")]%char
  = io.is_scheme_char c.
Proof.
  unfold Re.in_set, io.is_scheme_char, io.is_letter, io.is_digit. simpl.
  rewrite !leb_both, orb_false_r.
  destruct (Ascii.leb "A" c && Ascii.leb c "Z"),
           (Ascii.leb "a" c && Ascii.leb c "z"),
           (Ascii.leb "0" c && Ascii.leb c "9"),
           (Ascii.eqb c "+"), (Ascii.eqb c "-"), (Ascii.eqb c ".");
    reflexivity.
Qed.

Lemma all_chars_ext (f g : ascii -> bool) s :
  (forall c, f c = g c) -> io.all_chars f s = io.all_chars g s.
Proof.
  intros E. induction s as [ | c s IH]; simpl; [ | rewrite E, IH ]; reflexivity.
Qed.

Lemma matches_lit_inv start c w :
  Re.matches start (Re.Lit c) w -> w = String c EmptyString.
Proof.
  intros Hm. apply matches_set_inv in Hm as (c' & -> & Hin).
  unfold Re.in_set in Hin. simpl in Hin.
  rewrite orb_false_r, leb_both in Hin.
  apply Ascii.eqb_eq in Hin. subst. reflexivity.
Qed.

Lemma matches_lit start c : Re.matches start (Re.Lit c) (String c EmptyString).
Proof.
  constructor. unfold Re.in_set. simpl.
  rewrite orb_false_r, leb_both. apply Ascii.eqb_refl.
Qed.

(** The words of [_RFC3896_]: a scheme followed by [://]. *)
Lemma matches_RFC3896 w :
  Re.matches true io._RFC3896_ w
  <-> exists scheme, io.is_scheme scheme = true
                     /\ w = String.append scheme "://".
Proof.
  unfold io._RFC3896_. split.
  - intros Hm.
    apply matches_cat_inv in Hm as (w0 & wa & -> & H0 & Hm).
    inversion H0; subst. clear H0. rewrite append_nil_l.
    apply matches_cat_inv in Hm as (w1 & wb & -> & H1 & Hm).
    apply matches_set_inv in H1 as (c & -> & Hc).
    apply matches_cat_inv in Hm as (w2 & wc & -> & H2 & Hm).
    apply matches_star_set in H2.
    apply matches_cat_inv in Hm as (w3 & wd & -> & H3 & Hm).
    apply matches_lit_inv in H3 as ->.
    apply matches_cat_inv in Hm as (w4 & w5 & -> & H4 & H5).
    apply matches_lit_inv in H4 as ->. apply matches_lit_inv in H5 as ->.
    exists (String c w2). split.
    + simpl. rewrite <- in_letters, Hc. simpl.
      etransitivity; [ | exact H2 ]. apply all_chars_ext. intros c'.
      symmetry. apply in_scheme_chars.
    + rewrite !append_cons, !append_nil_l. reflexivity.
  - intros (scheme & Hs & ->). destruct scheme as [ | c cs]; [ discriminate | ].
    simpl in Hs. apply andb_prop in Hs as [Hc Hcs].
    apply (Re.matches_cat true _ _ EmptyString); [ constructor | ].
    apply (Re.matches_cat _ _ _ (String c EmptyString)).
    { constructor. rewrite in_letters. exact Hc. }
    apply (Re.matches_cat _ _ _ cs "://").
    { apply matches_star_set. etransitivity; [ | exact Hcs ].
      apply all_chars_ext. apply in_scheme_chars. }
    apply (Re.matches_cat _ _ _ ":" "//"); [ apply matches_lit | ].
    apply (Re.matches_cat _ _ _ "/" "/"); apply matches_lit.
Qed.
End IsUri.

Section IsUri2.
Context `{io.pathlib}.
Implicit Types (w s : string) (c : ascii).

Lemma prefix_iff p s :
  String.prefix p s = true <-> exists t, s = String.append p t.
Proof.
  revert s. induction p as [ | a p IH]; intros s.
  - split; [ intros _; exists s | intros _; destruct s ]; reflexivity.
  - destruct s as [ | b s]; simpl.
    + split; [ discriminate | intros (t & E); discriminate E ].
    + destruct (ascii_dec a b) as [-> | Hne].
      * rewrite IH. split; intros (t & E); exists t.
        -- rewrite append_cons, E. reflexivity.
        -- rewrite append_cons in E. injection E as E. exact E.
      * split; [ discriminate | ].
        intros (t & E). rewrite append_cons in E. injection E as E _.
        congruence.
Qed.

(** A string is cut at its first colon in one way only. *)
Lemma cut_at_colon (a b x y : string) :
  io.all_chars (fun c => negb (Ascii.eqb c ":")) a = true ->
  io.all_chars (fun c => negb (Ascii.eqb c ":")) b = true ->
  String.append a (String ":" x) = String.append b (String ":" y) ->
  a = b.
Proof.
  revert b. induction a as [ | c a IH]; intros [ | d b] Ha Hb E.
  - reflexivity.
  - rewrite append_nil_l, append_cons in E. injection E as <- _.
    simpl in Hb. discriminate Hb.
  - rewrite append_nil_l, append_cons in E. injection E as -> _.
    simpl in Ha. discriminate Ha.
  - rewrite !append_cons in E. injection E as -> E.
    simpl in Ha, Hb. apply andb_prop in Ha as [_ Ha].
    apply andb_prop in Hb as [_ Hb]. f_equal. apply (IH b Ha Hb E).
Qed.

Lemma scheme_char_not_colon c :
  io.is_scheme_char c = true -> negb (Ascii.eqb c ":") = true.
Proof.
  intros Hc. destruct (Ascii.eqb_spec c ":") as [-> | _]; [ | reflexivity ].
  vm_compute in Hc. discriminate Hc.
Qed.

Lemma all_chars_impl (f g : ascii -> bool) s :
  (forall c, f c = true -> g c = true) ->
  io.all_chars f s = true -> io.all_chars g s = true.
Proof.
  intros Hfg. induction s as [ | c s IH]; simpl; [ reflexivity | ].
  intros Ha. apply andb_prop in Ha as [Hc Hs].
  rewrite (Hfg c Hc), (IH Hs). reflexivity.
Qed.

Lemma scheme_has_no_colon s :
  io.is_scheme s = true ->
  io.all_chars (fun c => negb (Ascii.eqb c ":")) s = true.
Proof.
  destruct s as [ | c s]; [ discriminate | ]. simpl.
  intros Hs. apply andb_prop in Hs as [Hc Hs].
  rewrite (scheme_char_not_colon c).
  - apply (all_chars_impl _ _ s scheme_char_not_colon Hs).
  - unfold io.is_scheme_char. rewrite Hc. reflexivity.
Qed.

End IsUri2.

(** ** Sorting *)

Section Sorting.
Context {A : Type} (lt : A -> A -> bool) `{!io.LtOrder lt}.
Implicit Types (a b : A) (l : list A).

Lemma insert_perm a l : Permutation (io.insert lt a l) (a :: l).
Proof.
  induction l as [ | b l IH]; simpl; [ reflexivity | ].
  destruct (lt b a); [ | reflexivity ].
  rewrite IH. apply perm_swap.
Qed.

Lemma sorted_perm l : Permutation (io.sorted lt l) l.
Proof.
  induction l as [ | a l IH]; simpl; [ reflexivity | ].
  rewrite insert_perm, IH. reflexivity.
Qed.

#[local] Instance not_after_trans : Transitive (io.not_after lt).
Proof using Type*.
  intros a b c Hab Hbc. unfold io.not_after in *.
  destruct (lt c a) eqn:Hca; [ exfalso | reflexivity ].
  destruct (lt a b) eqn:Hlt.
  - rewrite (io.lt_trans c a b Hca Hlt) in Hbc. discriminate Hbc.
  - rewrite (io.lt_connex a b Hlt Hab) in Hca. congruence.
Qed.

#[local] Instance not_after_antisym : AntiSymm (=) (io.not_after lt).
Proof using Type*. intros a b Hab Hba. apply io.lt_connex; assumption. Qed.

Lemma insert_sorted a l :
  Sorted (io.not_after lt) l -> Sorted (io.not_after lt) (io.insert lt a l).
Proof using Type*.
  induction 1 as [ | b l Hl IH Hb]; simpl.
  - repeat constructor.
  - destruct (lt b a) eqn:Hba.
    + constructor; [ exact IH | ].
      destruct Hb as [ | b' l' Hbb']; simpl.
      * constructor. apply (io.lt_asym b a Hba).
      * destruct (lt b' a); constructor;
          [ exact Hbb' | apply (io.lt_asym b a Hba) ].
    + constructor; [ constructor; assumption | ].
      constructor. exact Hba.
Qed.

Lemma sorted_is_sorted l : Sorted (io.not_after lt) (io.sorted lt l).
Proof using Type*.
  induction l as [ | a l IH]; simpl; [ constructor | ].
  apply insert_sorted, IH.
Qed.

(** Sorting forgets the order the items came in. *)
Lemma sorted_of_permutation l1 l2 :
  Permutation l1 l2 -> io.sorted lt l1 = io.sorted lt l2.
Proof using Type*.
  intros Hp.
  apply (Sorted_unique (io.not_after lt)); try apply sorted_is_sorted.
  rewrite !sorted_perm. exact Hp.
Qed.
End Sorting.

(** The order of strings, by code points. *)
#[export] Instance string_lt_order : io.LtOrder String.ltb.
Proof.
  assert (Hlt : forall a b : string,
             String.ltb a b = true <-> String.compare a b = Lt).
  { intros a b. unfold String.ltb.
    destruct (String.compare a b); split; congruence. }
  split.
  - intros a b Hab. apply Hlt in Hab. unfold String.ltb.
    rewrite String.compare_antisym, Hab. reflexivity.
  - intros a b c Hab Hbc. apply Hlt in Hab, Hbc. apply Hlt.
    assert (Hle : String.le a c).
    { transitivity b; unfold String.le, String.leb;
        [ rewrite Hab | rewrite Hbc ]; exact I. }
    unfold String.le, String.leb in Hle.
    destruct (String.compare a c) eqn:Hac; [ | reflexivity | destruct Hle ].
    apply String.compare_eq_iff in Hac. subst c.
    rewrite String.compare_antisym, Hab in Hbc. discriminate Hbc.
  - intros a b Hab Hba. unfold String.ltb in *.
    rewrite String.compare_antisym in Hba.
    destruct (String.compare a b) eqn:Hc; try discriminate.
    apply String.compare_eq_iff, Hc.
Qed.

(** ** The loops *)

Section Loops.
Context {X A : Type}.
Implicit Types (body : X -> io.result (list A)) (l : list X).

Lemma extend_each_err l body (e : io.exception) :
  io.extend_each l body (io.Err e) = io.Err e.
Proof. induction l as [ | x l IH]; simpl; [ reflexivity | exact IH ]. Qed.

(** The loop reads the items in order, after what was read before. *)
Lemma extend_each_reads l body : forall read_files : list A,
  io.extend_each l body (io.Ok read_files)
  = io.and_then (io.read_all body l)
      (fun rs => io.Ok (read_files ++ rs)).
Proof.
  induction l as [ | x l IH]; intros read_files; simpl.
  - rewrite app_nil_r. reflexivity.
  - unfold io.extend_each in *. simpl.
    destruct (body x) as [r | e]; simpl.
    + rewrite IH. destruct (io.read_all body l) as [rs | e]; simpl;
        [ rewrite app_assoc | ]; reflexivity.
    + apply extend_each_err.
Qed.

Lemma read_all_app body l1 l2 :
  io.read_all body (l1 ++ l2)
  = io.and_then (io.read_all body l1) (fun r1 =>
      io.and_then (io.read_all body l2) (fun r2 => io.Ok (r1 ++ r2))).
Proof.
  induction l1 as [ | x l1 IH]; simpl.
  - destruct (io.read_all body l2); reflexivity.
  - destruct (body x) as [r | e]; simpl; [ | reflexivity ].
    rewrite IH. destruct (io.read_all body l1) as [r1 | e]; simpl;
      [ | reflexivity ].
    destruct (io.read_all body l2) as [r2 | e]; simpl;
      [ rewrite app_assoc | ]; reflexivity.
Qed.

Lemma read_all_map {Y : Type} (g : Y -> X) body (l : list Y) :
  io.read_all body (map g l) = io.read_all (fun y => body (g y)) l.
Proof.
  induction l as [ | y l IH]; simpl; [ | rewrite IH ]; reflexivity.
Qed.

(** When every read succeeds the result is the concatenation. *)
Lemma read_all_ok body (g : X -> list A) l :
  (forall x, In x l -> body x = io.Ok (g x)) ->
  io.read_all body l = io.Ok (concat (map g l)).
Proof.
  induction l as [ | x l IH]; intros Hok; simpl; [ reflexivity | ].
  rewrite (Hok x (or_introl eq_refl)). simpl.
  rewrite IH by (intros y Hy; apply Hok; right; exact Hy). reflexivity.
Qed.
End Loops.

(** ** parse_uri *)

Section ParseUri.
Context {K A : Type}.
Implicit Types (f : string -> K -> io.result (list A)) (kwargs : K)
  (objs : list io.OpenFile).

Lemma parse_uri_loop_err objs f kwargs (e : io.exception) :
  io.parse_uri_loop objs f kwargs (io.Err e) = io.Err e.
Proof.
  induction objs as [ | obj objs IH]; [ reflexivity | exact IH ].
Qed.

Lemma parse_uri_loop_reads objs f kwargs : forall read_files : list A,
  io.parse_uri_loop objs f kwargs (io.Ok read_files)
  = io.and_then
      (io.read_all (fun uri => f uri kwargs) (flat_map io.uris_of objs))
      (fun rs => io.Ok (read_files ++ rs)).
Proof.
  induction objs as [ | obj objs IH]; intros read_files.
  - simpl. rewrite app_nil_r. reflexivity.
  - unfold io.parse_uri_loop in *. cbn [fold_left flat_map].
    rewrite read_all_app. unfold io.uris_of at 1. cbn [io.and_then].
    destruct (io.isfile (io.fs obj) (io.path obj)).
    + cbn [io.read_all]. destruct (f _ kwargs) as [r | e]; cbn [io.and_then].
      * rewrite IH, app_nil_r.
        destruct (io.read_all _ (flat_map io.uris_of objs)) as [rs | e];
          cbn [io.and_then]; [ rewrite app_assoc | ]; reflexivity.
      * apply parse_uri_loop_err.
    + destruct (io.isdir (io.fs obj) (io.path obj)).
      * rewrite extend_each_reads, read_all_map.
        destruct (io.read_all _ (io.sorted _ _)) as [r | e];
          cbn [io.and_then].
        -- rewrite IH.
           destruct (io.read_all _ (flat_map io.uris_of objs)) as [rs | e];
             cbn [io.and_then]; [ rewrite app_assoc | ]; reflexivity.
        -- apply parse_uri_loop_err.
      * cbn [io.read_all io.and_then]. rewrite IH.
        destruct (io.read_all _ (flat_map io.uris_of objs)); reflexivity.
Qed.

Lemma parse_uri_read_all objs f kwargs :
  io.parse_uri objs f kwargs
  = io.read_all (fun uri => f uri kwargs) (flat_map io.uris_of objs).
Proof.
  unfold io.parse_uri. rewrite parse_uri_loop_reads.
  destruct (io.read_all _ _); reflexivity.
Qed.

(** X7. [parse_uri] reads, in the order of [obj_list], every object that is
    a file and the sorted listing of every object that is a directory,
    and nothing for the others; it returns what [f] returned, put end to
    end, or the first error [f] raised. *)
Theorem parse_uri_reads objs f kwargs :
  io.parse_uri objs f kwargs
  = io.read_all (fun uri => f uri kwargs) (flat_map io.uris_of objs).
Proof. apply parse_uri_read_all. Qed.

(** X8. Parsing two lists one after the other is parsing them end to end. *)
Theorem parse_uri_app objs1 objs2 f kwargs :
  io.parse_uri (objs1 ++ objs2) f kwargs
  = io.and_then (io.parse_uri objs1 f kwargs) (fun r1 =>
      io.and_then (io.parse_uri objs2 f kwargs) (fun r2 =>
        io.Ok (r1 ++ r2))).
Proof. rewrite !parse_uri_read_all, flat_map_app. apply read_all_app. Qed.

(** X9. Objects that are neither files nor directories are passed over in
    silence: whatever [f] is, nothing is read and nothing is raised. *)
Theorem parse_uri_skips_what_is_missing objs f kwargs :
  Forall (fun obj => io.isfile (io.fs obj) (io.path obj) = false
                     /\ io.isdir (io.fs obj) (io.path obj) = false) objs ->
  io.parse_uri objs f kwargs = io.Ok [].
Proof.
  intros Hmiss. rewrite parse_uri_read_all.
  replace (flat_map io.uris_of objs) with (@nil string); [ reflexivity | ].
  induction Hmiss as [ | obj objs [Hf Hd] _ IH]; [ reflexivity | ].
  cbn [flat_map]. unfold io.uris_of at 1. rewrite Hf, Hd. exact IH.
Qed.

Lemma uris_of_same_listing (o1 o2 : io.OpenFile) :
  io.path o1 = io.path o2 -> io.same_listing (io.fs o1) (io.fs o2) ->
  io.uris_of o1 = io.uris_of o2.
Proof.
  intros Ep (Hf & Hd & Hu & Hg). unfold io.uris_of.
  rewrite Ep, Hf, Hd.
  destruct (io.isfile (io.fs o2) (io.path o2)); [ rewrite Hu; reflexivity | ].
  destruct (io.isdir (io.fs o2) (io.path o2)); [ | reflexivity ].
  rewrite (sorted_of_permutation String.ltb _ _ (Hg _)).
  apply map_ext. exact Hu.
Qed.

(** X10. The result does not depend on the order in which the file systems
    list the entries of a directory. *)
Theorem parse_uri_ignores_listing_order objs1 objs2 f kwargs :
  Forall2 (fun o1 o2 => io.path o1 = io.path o2
                        /\ io.same_listing (io.fs o1) (io.fs o2))
          objs1 objs2 ->
  io.parse_uri objs1 f kwargs = io.parse_uri objs2 f kwargs.
Proof.
  intros Hsame. rewrite !parse_uri_read_all. f_equal.
  induction Hsame as [ | o1 o2 l1 l2 [Ep Hl] _ IH]; [ reflexivity | ].
  cbn [flat_map]. rewrite (uris_of_same_listing o1 o2 Ep Hl), IH.
  reflexivity.
Qed.
End ParseUri.

(** ** parse_path *)

Section ParsePath.
Context `{io.pathlib} {K A : Type}.
Implicit Types (sys : io.os) (f : io.Path -> K -> io.result (list A))
  (kwargs : K).

Lemma and_then_ok (m : io.result (list A)) :
  io.and_then m (fun rs => io.Ok ([] ++ rs)) = m.
Proof. destruct m; reflexivity. Qed.

Lemma parse_path_read_all sys (path : io.value) f kwargs :
  io.parse_path sys path f kwargs
  = match path with
    | io.VPath p =>
        match io.expanduser sys p with
        | io.Ok q =>
            match io.paths_of sys q with
            | Some found => io.read_all (fun a => f a kwargs) found
            | None =>
                io.Err (io.ValueError
                          (String.append "Did not find any files at "
                             (io.str q)))
            end
        | io.Err e => io.Err e
        end
    | io.VPathLike cls _ =>
        io.Err (io.AttributeError (io.no_attribute cls "expanduser"))
    | io.VStr _ | io.VNone =>
        io.Err (io.ValueError "path must be a pathlib.Path object")
    end.
Proof.
  destruct path as [s | p | cls fspath | ]; try reflexivity.
  unfold io.parse_path, io.paths_of.
  destruct (io.expanduser sys p) as [q | e]; [ | reflexivity ].
  cbn [io.and_then].
  destruct (io.is_file sys q).
  { cbn [io.read_all io.and_then].
    destruct (f q kwargs); cbn [io.and_then]; [ rewrite app_nil_r | ];
      reflexivity. }
  destruct (io.is_dir sys q).
  { rewrite extend_each_reads. apply and_then_ok. }
  destruct (io.glob_glob sys (io.str q)) as [ | g gs] eqn:Eg.
  { reflexivity. }
  rewrite bool_decide_eq_false_2 by discriminate. cbn [negb].
  rewrite extend_each_reads, read_all_map. apply and_then_ok.
Qed.

(** X11. [parse_path] raises its own ValueError for an argument that is
    not path-like, an AttributeError for a path-like object that has no
    [expanduser], and whatever [Path.expanduser()] raises; for the
    expanded path it raises its ValueError when nothing is found there,
    and otherwise reads the file, or the sorted entries of the directory,
    or the sorted matches of the pattern, and returns what [f] returned,
    put end to end, or the first error [f] raised. *)
Theorem parse_path_reads sys (path : io.value) f kwargs :
  io.parse_path sys path f kwargs
  = match path with
    | io.VPath p =>
        match io.expanduser sys p with
        | io.Ok q =>
            match io.paths_of sys q with
            | Some found => io.read_all (fun a => f a kwargs) found
            | None =>
                io.Err (io.ValueError
                          (String.append "Did not find any files at "
                             (io.str q)))
            end
        | io.Err e => io.Err e
        end
    | io.VPathLike cls _ =>
        io.Err (io.AttributeError (io.no_attribute cls "expanduser"))
    | io.VStr _ | io.VNone =>
        io.Err (io.ValueError "path must be a pathlib.Path object")
    end.
Proof. apply parse_path_read_all. Qed.

Lemma read_all_total {X : Type} (body : X -> io.result (list A))
    (l : list X) :
  (forall x, exists r, body x = io.Ok r) ->
  exists rs, io.read_all body l = io.Ok rs.
Proof.
  intros Hok. induction l as [ | x l (rs & IH)]; simpl; [ eauto | ].
  destruct (Hok x) as (r & ->). rewrite IH. simpl. eauto.
Qed.

(** X12. With a reader that never fails, [parse_path] raises two things
    only for a path: what [Path.expanduser()] raised, or, once the path
    is expanded, its own "Did not find any files"; an exception of
    [Path.is_file()] or [Path.is_dir()] never comes out. *)
Theorem parse_path_raises_not_found_or_expanduser
    sys (p : io.Path) f kwargs :
  (forall q, exists r, f q kwargs = io.Ok r) ->
  (exists out, io.parse_path sys (io.VPath p) f kwargs = io.Ok out)
  \/ (exists q,
        io.expanduser sys p = io.Ok q
        /\ io.parse_path sys (io.VPath p) f kwargs
           = io.Err (io.ValueError
                       (String.append "Did not find any files at "
                          (io.str q))))
  \/ (exists e,
        io.expanduser sys p = io.Err e
        /\ io.parse_path sys (io.VPath p) f kwargs = io.Err e).
Proof.
  intros Hok. rewrite parse_path_read_all.
  destruct (io.expanduser sys p) as [q | e]; [ | right; right; eauto ].
  destruct (io.paths_of sys q) as [found | ]; [ left | right; left; eauto ].
  apply read_all_total. exact Hok.
Qed.

Lemma paths_of_same_files `{!io.LtOrder io.Path_lt} sys1 sys2 (q : io.Path) :
  io.same_files sys1 sys2 -> io.paths_of sys1 q = io.paths_of sys2 q.
Proof.
  intros (He & Hf & Hd & Hg & Hgg). unfold io.paths_of, io.is_file, io.is_dir.
  rewrite Hf, Hd.
  destruct (io.Path_is_file sys2 q) as [[ | ] | ]; try reflexivity;
    destruct (io.Path_is_dir sys2 q) as [[ | ] | ];
    try (rewrite (sorted_of_permutation io.Path_lt _ _ (Hg q _));
         reflexivity).
  all: specialize (Hgg (io.str q));
    destruct (io.glob_glob sys1 (io.str q)) as [ | a l1] eqn:E1;
    destruct (io.glob_glob sys2 (io.str q)) as [ | b l2] eqn:E2;
    [ reflexivity
    | apply Permutation_nil in Hgg; discriminate Hgg
    | symmetry in Hgg; apply Permutation_nil in Hgg; discriminate Hgg
    | rewrite (sorted_of_permutation String.ltb _ _ Hgg); reflexivity ].
Qed.

(** X13. The result does not depend on the order in which the system lists the
    entries of a directory or the matches of a pattern. *)
Theorem parse_path_ignores_listing_order `{!io.LtOrder io.Path_lt}
    sys1 sys2 (path : io.value) f kwargs :
  io.same_files sys1 sys2 ->
  io.parse_path sys1 path f kwargs = io.parse_path sys2 path f kwargs.
Proof.
  intros Hsame. rewrite !parse_path_read_all.
  destruct path as [s | p | cls fspath | ]; try reflexivity.
  destruct Hsame as (He & Hrest). rewrite He.
  destruct (io.expanduser sys2 p) as [q | e]; [ | reflexivity ].
  rewrite (paths_of_same_files sys1 sys2 _ (conj He Hrest)). reflexivity.
Qed.
End ParsePath.

(** ** All or nothing *)

Section AllOrNothing.
Context {X A : Type}.
Implicit Types (body : X -> io.result (list A)) (l : list X).

Lemma read_all_ok_iff body l (out : list A) :
  io.read_all body l = io.Ok out
  <-> exists rs, Forall2 (fun x r => body x = io.Ok r) l rs
                 /\ out = concat rs.
Proof.
  revert out. induction l as [ | x l IH]; intros out; simpl.
  - split.
    + intros E. injection E as <-. exists [].
      split; [ constructor | reflexivity ].
    + intros (rs & Hrs & ->). inversion Hrs. reflexivity.
  - destruct (body x) as [r | e] eqn:Ex; simpl.
    + destruct (io.read_all body l) as [rest | e] eqn:El; simpl.
      * split.
        -- intros E. injection E as <-.
           destruct (proj1 (IH rest) eq_refl) as (rs & Hrs & ->).
           exists (r :: rs). split; [ constructor; assumption | reflexivity ].
        -- intros (rs & Hrs & ->).
           inversion Hrs as [ | ? r' ? rs' Hr Hrest ]; subst.
           rewrite Ex in Hr. injection Hr as <-.
           assert (E : io.Ok rest = io.Ok (concat rs'))
             by (apply IH; exists rs'; split; [ exact Hrest | reflexivity ]).
           injection E as ->. reflexivity.
      * split; [ discriminate | ].
        intros (rs & Hrs & ->).
        inversion Hrs as [ | ? r' ? rs' Hr Hrest ]; subst.
        assert (E : @io.Err (list A) e = io.Ok (concat rs'))
          by (apply IH; exists rs'; split; [ exact Hrest | reflexivity ]).
        discriminate E.
    + split; [ discriminate | ].
      intros (rs & Hrs & _). inversion Hrs as [ | ? r' ? rs' Hr Hrest ]; subst.
      rewrite Ex in Hr. discriminate Hr.
Qed.

Lemma read_all_err_iff body l (e : io.exception) :
  io.read_all body l = io.Err e
  <-> exists before x after,
        l = before ++ x :: after
        /\ Forall (fun y => exists r, body y = io.Ok r) before
        /\ body x = io.Err e.
Proof.
  induction l as [ | x l IH]; simpl.
  - split; [ discriminate | ].
    intros (before & y & after & E & _). destruct before; discriminate E.
  - destruct (body x) as [r | e0] eqn:Ex; simpl.
    + destruct (io.read_all body l) as [rest | e1] eqn:El; simpl.
      * split; [ discriminate | ].
        intros (before & y & after & E & Hb & Hy).
        destruct before as [ | b before]; simpl in E; injection E as -> ->.
        -- rewrite Ex in Hy. discriminate Hy.
        -- inversion Hb; subst.
           assert (E : io.Ok rest = io.Err e)
             by (apply IH; exists before, y, after; auto).
           discriminate E.
      * split.
        -- intros E. injection E as ->.
           destruct (proj1 IH eq_refl) as (before & y & after & -> & Hb & Hy).
           exists (x :: before), y, after. split; [ reflexivity | ].
           split; [ constructor; eauto | exact Hy ].
        -- intros (before & y & after & E & Hb & Hy).
           destruct before as [ | b before]; simpl in E; injection E as -> ->.
           ++ rewrite Ex in Hy. discriminate Hy.
           ++ inversion Hb; subst. f_equal. symmetry.
              assert (E : io.Err e1 = io.Err e)
                by (apply IH; exists before, y, after; auto).
              injection E as ->. reflexivity.
    + split.
      * intros E. injection E as ->. exists [], x, l.
        split; [ reflexivity | ]. split; [ constructor | exact Ex ].
      * intros (before & y & after & E & Hb & Hy).
        destruct before as [ | b before]; simpl in E; injection E as -> ->.
        -- rewrite Ex in Hy. exact Hy.
        -- inversion Hb as [ | ? ? (r & Hr) ? ]; subst.
           rewrite Ex in Hr. discriminate Hr.
Qed.
End AllOrNothing.

(** X14. [parse_uri] returns all or nothing.  It returns a list exactly
    when [f] succeeded on every URI it stands for, and the list is then
    what [f] returned, put end to end; it fails with an error exactly when
    [f] failed with that error on one of these URIs after succeeding on
    all the URIs before it. *)
Theorem parse_uri_all_or_nothing {K A : Type} (objs : list io.OpenFile)
    (f : string -> K -> io.result (list A)) (kwargs : K) :
  (forall out : list A,
     io.parse_uri objs f kwargs = io.Ok out
     <-> exists rs,
           Forall2 (fun uri r => f uri kwargs = io.Ok r)
                   (flat_map io.uris_of objs) rs
           /\ out = concat rs)
  /\ (forall e : io.exception,
        io.parse_uri objs f kwargs = io.Err e
        <-> exists before uri after,
              flat_map io.uris_of objs = before ++ uri :: after
              /\ Forall (fun u => exists r, f u kwargs = io.Ok r) before
              /\ f uri kwargs = io.Err e).
Proof.
  rewrite parse_uri_read_all. split.
  - intros out. apply read_all_ok_iff.
  - intros e. apply (read_all_err_iff (fun uri => f uri kwargs)).
Qed.

(** ** The helpers of io.py at concrete file systems *)

Lemma memory_same_listing (dir : string) (files1 files2 : list string) :
  Permutation files1 files2 ->
  io.same_listing (io.memory dir files1) (io.memory dir files2).
Proof.
  intros Hp. unfold io.same_listing, io.memory. simpl.
  split; [ | split; [ | split ] ]; try reflexivity.
  - intros p. apply bool_decide_ext. rewrite Hp. reflexivity.
  - intros pattern. destruct (bool_decide _); [ exact Hp | reflexivity ].
Qed.

Lemma disk_same_files (dir : string) (files1 files2 broken : list string) :
  Permutation files1 files2 ->
  io.same_files (io.disk dir files1 broken) (io.disk dir files2 broken).
Proof.
  intros Hp. unfold io.same_files, io.disk. simpl.
  split; [ reflexivity | ]. split; [ | split; [ reflexivity | split ] ].
  - intros p. destruct (bool_decide (p ∈ broken)); [ reflexivity | ].
    f_equal. apply bool_decide_ext. rewrite Hp. reflexivity.
  - intros p pattern. destruct (bool_decide _); [ exact Hp | reflexivity ].
  - intros pattern. reflexivity.
Qed.

(** Two objects that are not there, and a reader that always fails. *)
Lemma parse_uri_skips_what_is_missing_witness :
  let fs := io.memory "/d" ["/d/b.fits"; "/d/a.fits"]%string in
  let objs := [io.Build_OpenFile fs "/e"; io.Build_OpenFile fs "/d/c.fits"] in
  let f := fun (_ : string) (_ : unit) =>
             @io.Err (list nat) (io.Exception "unreadable") in
  Forall (fun obj => io.isfile (io.fs obj) (io.path obj) = false
                     /\ io.isdir (io.fs obj) (io.path obj) = false) objs
  /\ io.parse_uri objs f tt = io.Ok [].
Proof.
  intros fs objs f.
  assert (Hmiss : Forall (fun obj =>
                            io.isfile (io.fs obj) (io.path obj) = false
                            /\ io.isdir (io.fs obj) (io.path obj) = false)
                         objs).
  { repeat constructor. }
  split; [ exact Hmiss | ].
  apply (parse_uri_skips_what_is_missing objs f tt Hmiss).
Defined.

(** One directory, listed in two orders. *)
Lemma parse_uri_ignores_listing_order_witness :
  let fs1 := io.memory "/d" ["/d/b.fits"; "/d/a.fits"]%string in
  let fs2 := io.memory "/d" ["/d/a.fits"; "/d/b.fits"]%string in
  let f := fun (uri : string) (_ : unit) => io.Ok [uri] in
  io.same_listing fs1 fs2
  /\ io.parse_uri [io.Build_OpenFile fs1 "/d"] f tt
     = io.parse_uri [io.Build_OpenFile fs2 "/d"] f tt
  /\ io.parse_uri [io.Build_OpenFile fs2 "/d"] f tt
     = io.Ok ["memory:///d/a.fits"; "memory:///d/b.fits"]%string.
Proof.
  intros fs1 fs2 f.
  assert (Hsame : io.same_listing fs1 fs2)
    by (apply memory_same_listing, perm_swap).
  split; [ exact Hsame | ]. split; [ | vm_compute; reflexivity ].
  apply (parse_uri_ignores_listing_order
           [io.Build_OpenFile fs1 "/d"] [io.Build_OpenFile fs2 "/d"] f tt).
  constructor; [ split; [ reflexivity | exact Hsame ] | constructor ].
Defined.

(** A directory whose [is_file()] check raises is read as a directory;
    the path of a user who has no home is not expanded, and the
    RuntimeError comes out. *)
Lemma parse_path_raises_not_found_or_expanduser_witness :
  let sys := io.disk "/d" ["/d/b.fits"; "/d/a.fits"] ["/d"]%string in
  let f := fun (q : @io.Path io.string_paths) (_ : unit) =>
             io.Ok [io.str q] in
  let d : @io.Path io.string_paths := "/d"%string in
  let u : @io.Path io.string_paths := "~nosuchuser/x"%string in
  (forall q, exists r, f q tt = io.Ok r)
  /\ io.Path_is_file sys d = io.Err (io.Exception "OSError")
  /\ ((exists out, io.parse_path sys (io.VPath d) f tt = io.Ok out)
      \/ (exists q,
            io.expanduser sys d = io.Ok q
            /\ io.parse_path sys (io.VPath d) f tt
               = io.Err (io.ValueError
                           (String.append "Did not find any files at "
                              (io.str q))))
      \/ (exists e,
            io.expanduser sys d = io.Err e
            /\ io.parse_path sys (io.VPath d) f tt = io.Err e))
  /\ io.parse_path sys (io.VPath d) f tt
     = io.Ok ["/d/a.fits"; "/d/b.fits"]%string
  /\ io.parse_path sys (io.VPath u) f tt
     = io.Err (io.RuntimeError "Could not determine home directory.").
Proof.
  intros sys f d u.
  assert (Hok : forall q, exists r, f q tt = io.Ok r) by (intros q; eauto).
  split; [ exact Hok | ]. split; [ reflexivity | ].
  split; [ | split; vm_compute; reflexivity ].
  apply (parse_path_raises_not_found_or_expanduser sys d f tt Hok).
Defined.

(** What is not a path, what is path-like with no [expanduser], and the
    path of a user who has no home. *)
Lemma parse_path_reads_witness :
  let sys := io.disk "/d" ["/d/b.fits"; "/d/a.fits"] []%string in
  let f := fun (q : @io.Path io.string_paths) (_ : unit) =>
             io.Ok [io.str q] in
  let d : @io.Path io.string_paths := "/d"%string in
  let e : @io.Path io.string_paths := "/e"%string in
  let u : @io.Path io.string_paths := "~nosuchuser/x"%string in
  io.parse_path sys (io.VStr "/d") f tt
  = io.Err (io.ValueError "path must be a pathlib.Path object")
  /\ io.parse_path sys (io.VPathLike "PurePosixPath" "/d") f tt
     = io.Err (io.AttributeError
                 "'PurePosixPath' object has no attribute 'expanduser'")
  /\ io.parse_path sys (io.VPath u) f tt
     = io.Err (io.RuntimeError "Could not determine home directory.")
  /\ io.parse_path sys (io.VPath e) f tt
     = io.Err (io.ValueError "Did not find any files at /e")
  /\ io.parse_path sys (io.VPath d) f tt
     = io.Ok ["/d/a.fits"; "/d/b.fits"]%string.
Proof.
  intros sys f d e u. rewrite !parse_path_reads.
  repeat split; vm_compute; reflexivity.
Defined.

(** One directory on disk, listed in two orders. *)
Lemma parse_path_ignores_listing_order_witness :
  let sys1 := io.disk "/d" ["/d/b.fits"; "/d/a.fits"]%string [] in
  let sys2 := io.disk "/d" ["/d/a.fits"; "/d/b.fits"]%string [] in
  let f := fun (q : @io.Path io.string_paths) (_ : unit) =>
             io.Ok [io.str q] in
  let d : @io.Path io.string_paths := "/d"%string in
  io.same_files sys1 sys2
  /\ io.parse_path sys1 (io.VPath d) f tt
     = io.parse_path sys2 (io.VPath d) f tt.
Proof.
  intros sys1 sys2 f d.
  assert (Hsame : io.same_files sys1 sys2)
    by (apply disk_same_files, perm_swap).
  split; [ exact Hsame | ].
  apply (@parse_path_ignores_listing_order io.string_paths unit string
           string_lt_order sys1 sys2 (io.VPath d) f tt Hsame).
Defined.

(** ** The further properties of the screens at concrete stores *)

(** The sphere of centre (1, 0, 0) and radius 1 again, seen from distance
    1 along the x axis. *)
Lemma spherical_point_is_on_sphere_witness :
  let h : gmap loc (@pyobj R Aligned.coordinates) :=
    Aligned.world (1, 0, 0)%Z 1 [(1, 0, 0)%Z] in
  let S : Cartesian R := mkCartesian (1 + 1)%R 0%R 0%R in
  let radius : R := norm (Aligned.vec (T := R) (1, 0, 0)%Z) in
  let D : Cartesian R := Aligned.vec (1, 0, 0)%Z in
  dot D D = 1%R
  /\ (0 <= discriminant S radius D)%R
  /\ exists (out : list R) (t : R),
       SphericalScreen.calculate_distance Aligned.spherical 2%positive h
       = (Returns out, h)
       /\ out !! 0%nat = Some t
       /\ dot (vsub (scale D t) S) (vsub (scale D t) S) = sq radius.
Proof.
  intros h S radius D.
  assert (HD : dot D D = 1%R) by (unfold dot; simpl; lra).
  assert (Hr : sq radius = 1%R).
  { unfold sq, radius, norm. simpl. rewrite sqrt_sqrt by lra. lra. }
  assert (Hd : (0 <= discriminant S radius D)%R).
  { rewrite discriminant_real, sq_norm, Hr. unfold dot. simpl. lra. }
  split; [ exact HD | ]. split; [ exact Hd | ].
  apply (spherical_point_is_on_sphere Aligned.spherical 2%positive h
           (Aligned.point (1, 0, 0)%Z) (Aligned.frame_at 1 [(1, 0, 0)%Z])
           0%nat D (world_point _ _ _) (world_frame _ _ _) eq_refl HD Hd).
Defined.

(** The sphere centred on the observer, at distance 1: the observer is
    inside it. *)
Lemma spherical_from_inside_is_ahead_witness :
  let h : gmap loc (@pyobj R Aligned.coordinates) :=
    Aligned.world (-1, 0, 0)%Z 1 [(0, 1, 0)%Z] in
  let S : Cartesian R := mkCartesian (-1 + 1)%R 0%R 0%R in
  let radius : R := norm (Aligned.vec (T := R) (-1, 0, 0)%Z) in
  let D : Cartesian R := Aligned.vec (0, 1, 0)%Z in
  (sq (norm S) < sq radius)%R
  /\ (0 < discriminant S radius D)%R
  /\ exists (out : list R) (t : R),
       SphericalScreen.calculate_distance Aligned.spherical 2%positive h
       = (Returns out, h)
       /\ out !! 0%nat = Some t
       /\ (0 < t)%R
       /\ exists t', (t' < 0)%R /\ sphere_quadratic S radius D t' = 0%R.
Proof.
  intros h S radius D.
  assert (Hr : sq radius = 1%R).
  { unfold sq, radius, norm. simpl. rewrite sqrt_sqrt by lra. lra. }
  assert (Hin : (sq (norm S) < sq radius)%R).
  { rewrite sq_norm, Hr. simpl. lra. }
  split; [ exact Hin | ].
  apply (spherical_from_inside_is_ahead Aligned.spherical 2%positive h
           (Aligned.point (-1, 0, 0)%Z) (Aligned.frame_at 1 [(0, 1, 0)%Z])
           0%nat D (world_point _ _ _) (world_frame _ _ _) eq_refl Hin).
Defined.

(** The plane seen from its own vantage point, the observer at distance
    4, looking at the reference body. *)
Lemma planar_point_is_on_plane_witness :
  let h : gmap loc (@pyobj R Aligned.coordinates) :=
    Aligned.world (-4, 0, 0)%Z 4 [(1, 0, 0)%Z] in
  let V : Cartesian R := mkCartesian (-4 + 4)%R 0%R 0%R in
  let D : Cartesian R := Aligned.vec (1, 0, 0)%Z in
  let centre : Cartesian R := scale x_axis 4%R in
  let n : Cartesian R := plane_normal 4%R V in
  dot D n <> 0%R
  /\ exists (out : list R) (t : R),
       PlanarScreen.calculate_distance Aligned.planar 2%positive h
       = (Returns out, h)
       /\ out !! 0%nat = Some t
       /\ dot (vsub (scale D t) centre) n = 0%R
       /\ dot n n = 1%R.
Proof.
  intros h V D centre n.
  assert (Hn : dot D n <> 0%R).
  { unfold n, plane_normal, normalize, vdiv, norm, dot, vsub, scale,
      x_axis, D, V. simpl.
    match goal with
    | |- context [R_sqrt.sqrt ?e] => replace e with (4 * 4)%R by ring
    end.
    rewrite sqrt_square by lra. lra. }
  split; [ exact Hn | ].
  apply (planar_point_is_on_plane Aligned.planar 2%positive h
           (Aligned.point (-4, 0, 0)%Z) (Aligned.frame_at 4 [(1, 0, 0)%Z])
           0%nat D (world_point _ _ _) (world_frame _ _ _) eq_refl Hn).
Defined.

(** The same plane, by the formula for a vantage point at the observer. *)
Lemma planar_at_observer_witness :
  let h : gmap loc (@pyobj R Aligned.coordinates) :=
    Aligned.world (-4, 0, 0)%Z 4 [(1, 0, 0)%Z] in
  @transform_to_cartesian R Aligned.coordinates
    (Aligned.point (-4, 0, 0)%Z) (Aligned.frame_at 4 [(1, 0, 0)%Z])
  = mkCartesian 0%R 0%R 0%R
  /\ exists out : list R,
       PlanarScreen.calculate_distance Aligned.planar 2%positive h
       = (Returns out, h)
       /\ out !! 0%nat = Some (4 / 1)%R.
Proof.
  intros h.
  assert (EV : @transform_to_cartesian R Aligned.coordinates
                 (Aligned.point (-4, 0, 0)%Z)
                 (Aligned.frame_at 4 [(1, 0, 0)%Z])
               = mkCartesian 0%R 0%R 0%R).
  { simpl. f_equal. lra. }
  split; [ exact EV | ].
  apply (planar_at_observer Aligned.planar 2%positive h
           (Aligned.point (-4, 0, 0)%Z) (Aligned.frame_at 4 [(1, 0, 0)%Z])
           0%nat (Aligned.vec (1, 0, 0)%Z)
           (world_point _ _ _) (world_frame _ _ _) eq_refl EV);
    simpl; lra.
Defined.

(** Two vantage points on the line from the observer through the
    reference body, at heliocentric distances 4 and 8. *)
Lemma planar_depends_on_orientation_only_witness :
  let h : gmap loc (@pyobj R Aligned.coordinates) :=
    <[3%positive := @ObjSkyCoord R Aligned.coordinates
                      (Aligned.point (-8, 0, 0)%Z)]>
      (Aligned.world (-4, 0, 0)%Z 4 [(1, 0, 0)%Z]) in
  let far : PlanarScreen.t :=
    PlanarScreen.mk (BaseScreen.mk "planar" false) 3%positive in
  let v1 : Cartesian R :=
    vsub (scale x_axis 4%R) (mkCartesian (-4 + 4)%R 0%R 0%R) in
  let v2 : Cartesian R :=
    vsub (scale x_axis 4%R) (mkCartesian (-8 + 4)%R 0%R 0%R) in
  let D : Cartesian R := Aligned.vec (1, 0, 0)%Z in
  v2 = scale v1 2%R
  /\ dot D (normalize v1) <> 0%R
  /\ exists out1 out2 : list R,
       PlanarScreen.calculate_distance Aligned.planar 2%positive h
       = (Returns out1, h)
       /\ PlanarScreen.calculate_distance far 2%positive h
          = (Returns out2, h)
       /\ out1 !! 0%nat = out2 !! 0%nat.
Proof.
  intros h far v1 v2 D.
  assert (Hv : v2 = scale v1 2%R).
  { unfold v1, v2, vsub, scale, x_axis. simpl. f_equal; lra. }
  assert (Hn : dot D (normalize v1) <> 0%R).
  { unfold normalize, vdiv, norm, dot, v1, vsub, scale, x_axis, D. simpl.
    match goal with
    | |- context [R_sqrt.sqrt ?e] => replace e with (4 * 4)%R by ring
    end.
    rewrite sqrt_square by lra. lra. }
  split; [ exact Hv | ]. split; [ exact Hn | ].
  assert (E1 : h !! PlanarScreen.vantage_point Aligned.planar
               = Some (@ObjSkyCoord R Aligned.coordinates
                         (Aligned.point (-4, 0, 0)%Z))).
  { unfold h. rewrite lookup_insert_ne by discriminate. apply world_point. }
  assert (E2 : h !! PlanarScreen.vantage_point far
               = Some (@ObjSkyCoord R Aligned.coordinates
                         (Aligned.point (-8, 0, 0)%Z))).
  { unfold h. apply lookup_insert_eq. }
  assert (Ef : h !! 2%positive
               = Some (@ObjFrame R Aligned.coordinates
                         (Aligned.frame_at 4 [(1, 0, 0)%Z]))).
  { unfold h. rewrite lookup_insert_ne by discriminate. apply world_frame. }
  apply (planar_depends_on_orientation_only Aligned.planar far 2%positive h
           (Aligned.point (-4, 0, 0)%Z) (Aligned.point (-8, 0, 0)%Z)
           (Aligned.frame_at 4 [(1, 0, 0)%Z]) 2%R 0%nat D
           E1 E2 Ef eq_refl Hv).
  - lra.
  - exact Hn.
Defined.
